(** * home_media: catalog, duplicate detection and reorganisation of media files

    A shallow embedding of the three scripts of the repository

    - [findmediafiles.py]  (module [FindMediaFiles]): the first scanner,
    - [getmediainfo.py]    (module [GetMediaInfo]): the scanner with the
      path check, the catalog hash lookup and the capture-date extraction,
    - [reorder.py]         (module [Reorder]): the catalog-driven mover,

    followed by the properties of the specification that were checked
    against them.

    Conventions of the embedding.
    - The table [files] is the list of its rows in insertion order; the
      position of a row stands for its AUTOINCREMENT [id], which no
      script ever reads.  The TEXT columns are strings, the INTEGER
      columns are [Z].
    - Everything the scripts obtain from outside (file contents, sizes,
      timestamps, embedded metadata, the wall clock, the file system that
      [reorder.py] changes) is a field of an explicit world.
    - An exception that no [try] catches ends the run: every loop returns
      an [outcome] next to the state that was committed so far.
    - [logging] calls and the calls that reach outside are collected, in
      program order, in a list of events. *)

From stdpp Require Import gmap strings list fin_maps.
From Stdlib Require Import ZArith Ascii.

Open Scope Z_scope.

(** ** The Python string and path primitives the scripts use *)

Module Py.

(** [str.lower] on the ASCII letters. *)
Definition lower_ascii (c : ascii) : ascii :=
  let n := nat_of_ascii c in
  if ((65 <=? n)%nat && (n <=? 90)%nat)%bool then ascii_of_nat (n + 32) else c.

Fixpoint lower (s : string) : string :=
  match s with
  | EmptyString => EmptyString
  | String c s' => String (lower_ascii c) (lower s')
  end.

(** [s.rfind(c)]: the index of the last occurrence, [None] for -1. *)
Fixpoint rfind (c : ascii) (s : string) : option nat :=
  match s with
  | EmptyString => None
  | String a s' =>
      match rfind c s' with
      | Some i => Some (S i)
      | None => if Ascii.eqb a c then Some 0%nat else None
      end
  end.

(** [s[i:]] and [s[:n]]. *)
Definition slice_from (i : nat) (s : string) : string :=
  String.substring i (String.length s - i) s.

Definition slice_to (n : nat) (s : string) : string :=
  String.substring 0 n s.

(** [PurePath.suffix], computed from the final component [name]:
    [i = name.rfind('.')], and [name[i:]] when [0 < i < len(name) - 1],
    the empty string otherwise. *)
Definition suffix_of_name (name : string) : string :=
  match rfind "."%char name with
  | Some i =>
      if ((0 <? i)%nat && (S i <? String.length name)%nat)%bool
      then slice_from i name
      else ""
  | None => ""
  end.

(** [datetime] values; the class keeps every field in its range. *)
Record datetime := {
  year : Z; month : Z; day : Z;
  hour : Z; minute : Z; second : Z; microsecond : Z
}.

Definition digit (n : Z) : ascii := ascii_of_nat (48 + Z.to_nat (n mod 10)).

(** [%02d], [%04d] and [%06d] of a number within the width. *)
Definition pad2 (n : Z) : string :=
  String (digit (n / 10)) (String (digit n) "").
Definition pad4 (n : Z) : string :=
  String (digit (n / 1000)) (String (digit (n / 100)) (pad2 n)).
Definition pad6 (n : Z) : string :=
  String (digit (n / 100000)) (String (digit (n / 10000)) (pad4 n)).

Definition date_part (d : datetime) : string :=
  pad4 (year d) +:+ "-" +:+ pad2 (month d) +:+ "-" +:+ pad2 (day d).
Definition time_part (d : datetime) : string :=
  pad2 (hour d) +:+ ":" +:+ pad2 (minute d) +:+ ":" +:+ pad2 (second d).

(** [d.isoformat()]: [YYYY-MM-DDTHH:MM:SS], with [.ffffff] when the
    microsecond is not zero. *)
Definition isoformat (d : datetime) : string :=
  date_part d +:+ "T" +:+ time_part d
    +:+ (if microsecond d =? 0 then "" else "." +:+ pad6 (microsecond d)).

(** [d.strftime("%Y-%m-%d %H:%M:%S")]. *)
Definition strftime_Ymd_HMS (d : datetime) : string :=
  date_part d +:+ " " +:+ time_part d.

End Py.

(** ** ISO-8601 shape of a stored timestamp

    [is_iso8601 s] accepts [YYYY-MM-DD], then [T] or a blank, then
    [HH:MM:SS], then optionally a dot and digits: the calendar date in the
    extended format with the separators Python's own [fromisoformat]
    takes. *)

Module Iso.

Definition is_digit (c : ascii) : bool :=
  let n := nat_of_ascii c in ((48 <=? n)%nat && (n <=? 57)%nat)%bool.

Fixpoint all_digits (s : string) : bool :=
  match s with
  | EmptyString => true
  | String c s' => is_digit c && all_digits s'
  end.

(** [shape pat s]: [s] starts with the pattern, where [d] in the pattern
    stands for any digit and [_] for [T] or a blank, and every other
    character for itself; the remainder of [s] is returned. *)
Fixpoint shape (pat s : string) : option string :=
  match pat with
  | EmptyString => Some s
  | String p pat' =>
      match s with
      | EmptyString => None
      | String c s' =>
          let ok :=
            if Ascii.eqb p "d"%char then is_digit c
            else if Ascii.eqb p "_"%char
                 then (Ascii.eqb c "T"%char || Ascii.eqb c " "%char)%bool
                 else Ascii.eqb p c in
          if ok then shape pat' s' else None
      end
  end.

Definition is_iso8601 (s : string) : bool :=
  match shape "dddd-dd-dd_dd:dd:dd" s with
  | Some EmptyString => true
  | Some (String c frac) =>
      (Ascii.eqb c "."%char && all_digits frac
       && negb (String.eqb frac ""))%bool
  | None => false
  end.

End Iso.

(** ** The catalog: table [files] *)

Module Catalog.

(** One row of [files]; [duplicate] is the INTEGER column the spec calls
    [duplicateFlag]. *)
Record row := {
  hash : string;
  path : string;
  size : Z;
  date_taken : string;
  date_saved : string;
  duplicate : Z
}.

(** The flag as a truth value: any non-zero integer is true. *)
Definition duplicateFlag (r : row) : bool := negb (duplicate r =? 0).

(** [SELECT COUNT( * ) FROM files WHERE path = ?]. *)
Definition count_path (cat : list row) (p : string) : nat :=
  List.length (filter (λ r, path r = p) cat).

(** [SELECT hash FROM files WHERE hash = ?] followed by [fetchone()]. *)
Definition select_hash (cat : list row) (h : string) : option string :=
  head (hash <$> filter (λ r, hash r = h) cat).

(** [INSERT INTO files (...) VALUES (...)] and [commit]. *)
Definition insert (cat : list row) (r : row) : list row := cat ++ [r].

(** [SELECT path, hash, date_taken FROM files]. *)
Definition select_all (cat : list row) : list (string * string * string) :=
  (λ r, (path r, hash r, date_taken r)) <$> cat.

(** The invariant of the duplicate flag: a row that comes after a row
    with the same hash is flagged. *)
Definition first_wins (cat : list row) : Prop :=
  ∀ (i j : nat) (ri rj : row),
    (i < j)%nat → cat !! i = Some ri → cat !! j = Some rj →
    hash ri = hash rj → duplicateFlag rj = true.

(** What the claim says of one hash: at most one unflagged row, and it
    is the earliest row with that hash. *)
Definition unflagged_is_earliest (cat : list row) : Prop :=
  ∀ (j : nat) (rj : row),
    cat !! j = Some rj → duplicateFlag rj = false →
    ∀ (i : nat) (ri : row),
      cat !! i = Some ri → hash ri = hash rj → i ≠ j →
      (j < i)%nat ∧ duplicateFlag ri = true.

(** A check of [first_wins] by one pass over the rows, [seen] being the
    hashes of the rows already passed. *)
Fixpoint first_wins_from (seen : list string) (cat : list row) : bool :=
  match cat with
  | [] => true
  | r :: cat' =>
      (negb (bool_decide (hash r ∈ seen)) || duplicateFlag r)
      && first_wins_from (hash r :: seen) cat'
  end.

End Catalog.

(** Exceptions that leave a loop, and how a loop ends. *)
Inductive exception :=
| IOError (filepath : string)     (* open / read in [hash_file] *)
| OSError (filepath : string).    (* [os.path.getsize], [os.path.getctime], [os.makedirs] *)

Inductive outcome :=
| Completed
| Raised (e : exception).

(** The extension tables, identical in the three scripts. *)
Definition IMAGE_EXTENSIONS : list string :=
  [".jpg"; ".jpeg"; ".png"; ".gif"; ".bmp"; ".tiff"].
Definition VIDEO_EXTENSIONS : list string :=
  [".mp4"; ".avi"; ".mov"; ".mkv"; ".wmv"; ".flv"].

(** [ext in EXTENSIONS]. *)
Definition ext_in (ext : string) (exts : list string) : bool :=
  bool_decide (ext ∈ exts).

(** The path flavour of the host: [Path(p).name] and [os.path.join]. *)
Class Platform := {
  Path_name : string → string;
  os_path_join : string → string → string
}.

(** [Path(p).suffix]. *)
Definition Path_suffix `{Platform} (p : string) : string :=
  Py.suffix_of_name (Path_name p).

(** ** What the scanners read from outside *)

(** [img._getexif()] inside its [try]: it raises, or returns [None] or a
    dictionary from tag numbers to values, listed in iteration order. *)
Inductive exif_outcome :=
| ExifRaises
| ExifData (exif_data : option (list (Z * string))).

(** [createParser] and [extractMetadata] inside their [try]: something
    raises, no parser, no metadata, or a metadata object that may have a
    [creation_date]. *)
Inductive video_outcome :=
| VideoRaises
| VideoNoParser
| VideoNoMetadata
| VideoMetadata (creation_date : option Py.datetime).

(** The world of one scan: what the files under the roots hold, which
    does not change while the scripts run.  A field answers [None] where
    the Python call raises.  [sha1_hexdigest] is the digest [hashlib]
    returns for the bytes [hash_file] reads in chunks of 4096;
    [os_path_getctime] is the creation time already turned into a local
    [datetime] by [datetime.fromtimestamp]; [datetime_now n] is what the
    [n]-th reading of the wall clock returns. *)
Record World := {
  sha1_hexdigest : string → option string;
  os_path_getsize : string → option Z;
  os_path_getctime : string → option Py.datetime;
  Image_getexif : string → exif_outcome;
  hachoir_metadata : string → video_outcome;
  datetime_now : nat → Py.datetime
}.

(** The connection: the committed rows, and how often the wall clock has
    been read. *)
Record state := {
  catalog : list Catalog.row;
  clock : nat
}.

Inductive result (A : Type) :=
| Ok (a : A)
| Err (e : exception).
Arguments Ok {A} a.
Arguments Err {A} e.

(** Calls that reach outside a scanner, and its log records. *)
Inductive event :=
| CallHashFile (file : string)
| CallGetFileInfo (file : string)
| LogExifError (filepath : string)
| LogVideoError (filepath : string)
| SelectCountPath (file : string)
| LogSkippedSamePath (file file_hash : string)
| SelectHash (file_hash : string)
| InsertRow (r : Catalog.row).

(** [hash_file]: the SHA-1 hex digest of the bytes of the file. *)
Definition hash_file (w : World) (filepath : string) : result string :=
  match sha1_hexdigest w filepath with
  | Some digest => Ok digest
  | None => Err (IOError filepath)
  end.

(** [insert_file_info]. *)
Definition insert_file_info (st : state) (file_info : Catalog.row) : state :=
  {| catalog := Catalog.insert (catalog st) file_info; clock := clock st |}.

(** ** getmediainfo.py *)

Module GetMediaInfo.

Import Catalog.

Section Scan.

Context `{Platform}.
Variable w : World.

(** The EXIF tag number that [TAGS] names [DateTimeOriginal]. *)
Definition DateTimeOriginal : Z := 36867.

(** The [for tag, value in exif_data.items()] loop with its [break]. *)
Fixpoint exif_date_taken (items : list (Z * string)) : option string :=
  match items with
  | [] => None
  | (tag, value) :: rest =>
      if tag =? DateTimeOriginal then Some value else exif_date_taken rest
  end.

(** The two [try] blocks of [get_file_info]: the value of [date_taken]
    before the fallback. *)
Definition embedded_date (filepath : string) : list event * option string :=
  let ext := Py.lower (Path_suffix filepath) in
  if ext_in ext IMAGE_EXTENSIONS then
    match Image_getexif w filepath with
    | ExifRaises => ([LogExifError filepath], None)
    | ExifData None => ([], None)
    | ExifData (Some items) => ([], exif_date_taken items)
    end
  else if ext_in ext VIDEO_EXTENSIONS then
    match hachoir_metadata w filepath with
    | VideoRaises => ([LogVideoError filepath], None)
    | VideoNoParser => ([], None)
    | VideoNoMetadata => ([], None)
    | VideoMetadata None => ([], None)
    | VideoMetadata (Some d) => ([], Some (Py.strftime_Ymd_HMS d))
    end
  else ([], None).

(** [not date_taken]. *)
Definition not_ (date_taken : option string) : bool :=
  match date_taken with
  | None => true
  | Some s => String.eqb s ""
  end.

(** [datetime.fromtimestamp(os.path.getctime(filepath)).isoformat()]. *)
Definition creation_date (filepath : string) : result string :=
  match os_path_getctime w filepath with
  | Some d => Ok (Py.isoformat d)
  | None => Err (OSError filepath)
  end.

(** [get_file_info]: [(size, date_taken, date_saved)]. *)
Definition get_file_info (now : nat) (filepath : string)
  : list event * result (Z * string * string) :=
  match os_path_getsize w filepath with
  | None => ([], Err (OSError filepath))
  | Some size =>
      let '(evs, date_taken) := embedded_date filepath in
      let date_taken :=
        if not_ date_taken then creation_date filepath
        else Ok (default "" date_taken) in
      match date_taken with
      | Err e => (evs, Err e)
      | Ok date_taken =>
          (evs, Ok (size, date_taken, Py.isoformat (datetime_now w now)))
      end
  end.

(** The body of the loop of [find_duplicates_and_store]. *)
Definition process_file (st : state) (hashes : gmap string string)
    (file : string) : list event * state * gmap string string * outcome :=
  match hash_file w file with
  | Err e => ([CallHashFile file], st, hashes, Raised e)
  | Ok file_hash =>
      let '(evs, info) := get_file_info (clock st) file in
      let calls := CallHashFile file :: CallGetFileInfo file :: evs in
      match info with
      | Err e => (calls, st, hashes, Raised e)
      | Ok (size, date_taken, date_saved) =>
          let st := {| catalog := catalog st; clock := S (clock st) |} in
          let exists_ := (0 <? count_path (catalog st) file)%nat in
          if exists_ then
            (calls ++ [SelectCountPath file;
                       LogSkippedSamePath file file_hash],
             st, hashes, Completed)
          else
            let file_info := Build_row file_hash file size date_taken date_saved in
            let queries := [SelectCountPath file; SelectHash file_hash] in
            match select_hash (catalog st) file_hash with
            | Some db_entry =>
                (calls ++ queries ++ [InsertRow (file_info 1)],
                 insert_file_info st (file_info 1), hashes, Completed)
            | None =>
                match hashes !! file_hash with
                | Some _ =>
                    (calls ++ queries ++ [InsertRow (file_info 1)],
                     insert_file_info st (file_info 1), hashes, Completed)
                | None =>
                    (calls ++ queries ++ [InsertRow (file_info 0)],
                     insert_file_info st (file_info 0),
                     <[file_hash := file_hash]> hashes, Completed)
                end
            end
      end
  end.

(** The [for file in files] loop, from the current [hashes]. *)
Fixpoint loop (st : state) (hashes : gmap string string)
    (files : list string) : list event * state * gmap string string * outcome :=
  match files with
  | [] => ([], st, hashes, Completed)
  | file :: rest =>
      match process_file st hashes file with
      | (evs, st', hashes', Completed) =>
          let '(evs', st'', hashes'', o) := loop st' hashes' rest in
          (evs ++ evs', st'', hashes'', o)
      | stopped => stopped
      end
  end.

(** [find_duplicates_and_store(conn, files)]: [hashes = {}], then the
    loop. *)
Definition find_duplicates_and_store (st : state) (files : list string)
  : list event * state * outcome :=
  let '(evs, st', _, o) := loop st ∅ files in (evs, st', o).

(** The script: one call for the images, one for the videos. *)
Definition main (st : state) (images videos : list string)
  : list event * state * outcome :=
  match find_duplicates_and_store st images with
  | (evs, st', Completed) =>
      let '(evs', st'', o) := find_duplicates_and_store st' videos in
      (evs ++ evs', st'', o)
  | stopped => stopped
  end.

(** The loop of the claim that the seen-set is redundant: the same
    body with the [elif file_hash in hashes] branch and the dictionary
    removed, so that only the catalog decides the flag. *)
Definition process_file_catalog_only (st : state) (file : string)
  : list event * state * outcome :=
  match hash_file w file with
  | Err e => ([CallHashFile file], st, Raised e)
  | Ok file_hash =>
      let '(evs, info) := get_file_info (clock st) file in
      let calls := CallHashFile file :: CallGetFileInfo file :: evs in
      match info with
      | Err e => (calls, st, Raised e)
      | Ok (size, date_taken, date_saved) =>
          let st := {| catalog := catalog st; clock := S (clock st) |} in
          let exists_ := (0 <? count_path (catalog st) file)%nat in
          if exists_ then
            (calls ++ [SelectCountPath file;
                       LogSkippedSamePath file file_hash],
             st, Completed)
          else
            let file_info := Build_row file_hash file size date_taken date_saved in
            let queries := [SelectCountPath file; SelectHash file_hash] in
            match select_hash (catalog st) file_hash with
            | Some db_entry =>
                (calls ++ queries ++ [InsertRow (file_info 1)],
                 insert_file_info st (file_info 1), Completed)
            | None =>
                (calls ++ queries ++ [InsertRow (file_info 0)],
                 insert_file_info st (file_info 0), Completed)
            end
      end
  end.

Fixpoint find_duplicates_and_store_catalog_only (st : state)
    (files : list string) : list event * state * outcome :=
  match files with
  | [] => ([], st, Completed)
  | file :: rest =>
      match process_file_catalog_only st file with
      | (evs, st', Completed) =>
          let '(evs', st'', o) :=
            find_duplicates_and_store_catalog_only st' rest in
          (evs ++ evs', st'', o)
      | stopped => stopped
      end
  end.

End Scan.

End GetMediaInfo.

(** ** findmediafiles.py *)

Module FindMediaFiles.

Import Catalog.

Section Scan.

Variable w : World.

(** [get_file_info]: size, creation date, time of the call. *)
Definition get_file_info (now : nat) (filepath : string)
  : result (Z * string * string) :=
  match os_path_getsize w filepath with
  | None => Err (OSError filepath)
  | Some size =>
      match os_path_getctime w filepath with
      | None => Err (OSError filepath)
      | Some d =>
          Ok (size, Py.isoformat d, Py.isoformat (datetime_now w now))
      end
  end.

(** The body of the loop of [find_duplicates_and_store]: no query at
    all, the dictionary alone decides. *)
Definition process_file (st : state) (hashes : gmap string string)
    (file : string) : list event * state * gmap string string * outcome :=
  match hash_file w file with
  | Err e => ([CallHashFile file], st, hashes, Raised e)
  | Ok file_hash =>
      let calls := [CallHashFile file; CallGetFileInfo file] in
      match get_file_info (clock st) file with
      | Err e => (calls, st, hashes, Raised e)
      | Ok (size, date_taken, date_saved) =>
          let st := {| catalog := catalog st; clock := S (clock st) |} in
          let file_info := Build_row file_hash file size date_taken date_saved in
          match hashes !! file_hash with
          | Some _ =>
              (calls ++ [InsertRow (file_info 1)],
               insert_file_info st (file_info 1), hashes, Completed)
          | None =>
              (calls ++ [InsertRow (file_info 0)],
               insert_file_info st (file_info 0),
               <[file_hash := file_hash]> hashes, Completed)
          end
      end
  end.

Fixpoint loop (st : state) (hashes : gmap string string)
    (files : list string) : list event * state * gmap string string * outcome :=
  match files with
  | [] => ([], st, hashes, Completed)
  | file :: rest =>
      match process_file st hashes file with
      | (evs, st', hashes', Completed) =>
          let '(evs', st'', hashes'', o) := loop st' hashes' rest in
          (evs ++ evs', st'', hashes'', o)
      | stopped => stopped
      end
  end.

Definition find_duplicates_and_store (st : state) (files : list string)
  : list event * state * outcome :=
  let '(evs, st', _, o) := loop st ∅ files in (evs, st', o).

End Scan.

End FindMediaFiles.

(** ** reorder.py *)

Module Reorder.

(** The file system the script changes.  [os_makedirs fs d] is
    [os.makedirs(d, exist_ok=True)], [shutil_move fs src dst] is
    [shutil.move(src, dst)]; the boolean is [false] when the call raises
    (an [Exception] in the case of the move). *)
Class FileSystem := {
  FS : Type;
  os_makedirs : FS → string → FS * bool;
  shutil_move : FS → string → string → FS * bool
}.

(** One element of [file_records]: [(file_path, file_hash, date_taken)]. *)
Definition record : Type := string * string * string.

Definition file_path (r : record) : string := r.1.1.
Definition file_hash (r : record) : string := r.1.2.
Definition date_taken (r : record) : string := r.2.

(** What an iteration does, in program order: its log records and its
    calls into the file system. *)
Inductive event :=
| LogSkippedDuplicate
| LogUnknownType
| CallMakedirs (destination_dir : string)
| CallMove (destination_path : string)
| LogMoved (destination_path : string)
| LogMoveError.

(** The trace of a run lists every event with the record of the
    iteration it belongs to. *)
Definition trace : Type := list (record * event).

Section Run.

Context `{Platform} `{FileSystem}.

Definition BASE_LOCATION : string := "H:\My Media".
Definition BASE_PHOTO_DIR : string := os_path_join BASE_LOCATION "photos".
Definition BASE_VIDEO_DIR : string := os_path_join BASE_LOCATION "videos".

(** The [if / elif / else] on the extension: the base directory, or
    [None] for the branch that skips. *)
Definition base_dir_of (file_path : string) : option string :=
  let ext := Py.lower (Path_suffix file_path) in
  if ext_in ext IMAGE_EXTENSIONS then Some BASE_PHOTO_DIR
  else if ext_in ext VIDEO_EXTENSIONS then Some BASE_VIDEO_DIR
  else None.

Definition destination_dir_of (base_dir : string) (r : record) : string :=
  os_path_join base_dir (Py.slice_to 4 (date_taken r)).

Definition destination_path_of (base_dir : string) (r : record) : string :=
  os_path_join (destination_dir_of base_dir r) (Path_name (file_path r)).

(** The body of the loop over [file_records]. *)
Definition relocate (fs : FS) (moved_files : gmap string string)
    (r : record) : trace * FS * gmap string string * outcome :=
  match moved_files !! file_hash r with
  | Some _ => ([(r, LogSkippedDuplicate)], fs, moved_files, Completed)
  | None =>
      match base_dir_of (file_path r) with
      | None => ([(r, LogUnknownType)], fs, moved_files, Completed)
      | Some base_dir =>
          let destination_dir := destination_dir_of base_dir r in
          match os_makedirs fs destination_dir with
          | (fs, false) =>
              ([(r, CallMakedirs destination_dir)], fs, moved_files,
               Raised (OSError destination_dir))
          | (fs, true) =>
              let destination_path := destination_path_of base_dir r in
              let calls := [(r, CallMakedirs destination_dir);
                            (r, CallMove destination_path)] in
              match shutil_move fs (file_path r) destination_path with
              | (fs, true) =>
                  (calls ++ [(r, LogMoved destination_path)], fs,
                   <[file_hash r := destination_path]> moved_files,
                   Completed)
              | (fs, false) =>
                  (calls ++ [(r, LogMoveError)], fs, moved_files,
                   Completed)
              end
          end
      end
  end.

Fixpoint loop (fs : FS) (moved_files : gmap string string)
    (file_records : list record)
  : trace * FS * gmap string string * outcome :=
  match file_records with
  | [] => ([], fs, moved_files, Completed)
  | r :: rest =>
      match relocate fs moved_files r with
      | (evs, fs', moved', Completed) =>
          let '(evs', fs'', moved'', o) := loop fs' moved' rest in
          (evs ++ evs', fs'', moved'', o)
      | stopped => stopped
      end
  end.

(** The successful moves of the files with hash [h] in a trace. *)
Definition is_move_of (h : string) (x : record * event) : bool :=
  match x.2 with
  | LogMoved _ => bool_decide (file_hash x.1 = h)
  | _ => false
  end.

Definition moves_of (h : string) (t : trace) : nat :=
  length (List.filter (is_move_of h) t).

(** The script: [moved_files = {}], all the rows, the loop. *)
Definition reorder (fs : FS) (cat : list Catalog.row)
  : trace * FS * gmap string string * outcome :=
  loop fs ∅ (Catalog.select_all cat).

End Run.

End Reorder.

(** ** A small concrete host, for running the scripts on examples *)

Module Host.

(** The text after the last [/]. *)
Fixpoint basename (p : string) : string :=
  match p with
  | EmptyString => EmptyString
  | String c p' =>
      match Py.rfind "/"%char p' with
      | Some _ => basename p'
      | None => if Ascii.eqb c "/"%char then p' else p
      end
  end.

Definition join (a b : string) : string := a +:+ "/" +:+ b.

#[export] Instance posix : Platform :=
  {| Path_name := basename; os_path_join := join |}.

(** The files present.  Creating a directory always works; a move works
    when the source is present and the destination is not. *)
#[export] Instance files_present : Reorder.FileSystem :=
  {| Reorder.FS := list string;
     Reorder.os_makedirs := λ fs _, (fs, true);
     Reorder.shutil_move := λ fs src dst,
       if bool_decide (src ∈ fs ∧ dst ∉ fs)
       then (dst :: filter (λ p, p ≠ src) fs, true)
       else (fs, false) |}.

Definition noon (y m d : Z) : Py.datetime :=
  {| Py.year := y; Py.month := m; Py.day := d;
     Py.hour := 12; Py.minute := 0; Py.second := 0; Py.microsecond := 0 |}.

(** A root with two byte-identical pictures [a.jpg] and [b.jpg], of
    which only [a.jpg] carries an EXIF capture date, a third picture
    [c.png], a film [v.mp4], a text file, and a picture [locked.jpg]
    that cannot be opened. *)
Definition root : World :=
  {| sha1_hexdigest := λ p,
       if bool_decide (p = "/r/locked.jpg") then None
       else if bool_decide (p = "/r/c.png") then Some "3c01bdbb"
       else if bool_decide (p = "/r/v.mp4") then Some "77af3e10"
       else Some "da39a3ee";
     os_path_getsize := λ _, Some 2048;
     os_path_getctime := λ _, Some (noon 2021 1 2);
     Image_getexif := λ p,
       if bool_decide (p = "/r/a.jpg")
       then ExifData (Some [(271, "Canon"); (36867, "2020:06:01 12:00:00")])
       else ExifData None;
     hachoir_metadata := λ _, VideoMetadata (Some (noon 2019 3 4));
     datetime_now := λ n, noon 2024 5 (1 + Z.of_nat n) |}.

Definition empty : state := {| catalog := []; clock := 0 |}.

Definition a_row (flag : Z) : Catalog.row :=
  {| Catalog.hash := "da39a3ee"; Catalog.path := "/r/a.jpg";
     Catalog.size := 2048; Catalog.date_taken := "2021-01-02T12:00:00";
     Catalog.date_saved := "2024-05-01T12:00:00";
     Catalog.duplicate := flag |}.

Definition b_row (flag : Z) : Catalog.row :=
  {| Catalog.hash := "da39a3ee"; Catalog.path := "/r/b.jpg";
     Catalog.size := 2048; Catalog.date_taken := "2021-01-02T12:00:00";
     Catalog.date_saved := "2024-05-02T12:00:00";
     Catalog.duplicate := flag |}.

Definition locked_row : Catalog.row :=
  {| Catalog.hash := "5ba93c9d"; Catalog.path := "/r/locked.jpg";
     Catalog.size := 512; Catalog.date_taken := "2021-01-02T12:00:00";
     Catalog.date_saved := "2024-05-02T12:00:00";
     Catalog.duplicate := 0 |}.

Definition notes_row : Catalog.row :=
  {| Catalog.hash := "da39a3ee"; Catalog.path := "/r/notes.txt";
     Catalog.size := 2048; Catalog.date_taken := "2021-01-02T12:00:00";
     Catalog.date_saved := "2024-05-01T12:00:00";
     Catalog.duplicate := 0 |}.

(** The catalog the first scanner leaves after it has been run on
    [a.jpg] and, in a second run, on [b.jpg]. *)
Definition two_unflagged : state :=
  {| catalog := [a_row 0; b_row 0]; clock := 2 |}.

Definition one_picture : state :=
  {| catalog := [a_row 0]; clock := 1 |}.

(** A text file and a picture with the same content, as rows for
    [reorder.py]. *)
Definition notes_record : Reorder.record :=
  ("/r/notes.txt", "da39a3ee", "2021-01-02T12:00:00").
Definition a_record : Reorder.record :=
  ("/r/a.jpg", "da39a3ee", "2020:06:01 12:00:00").

End Host.

(** ** [hash_file] as the loop over the open file *)

Module HashFile.

(** A [hashlib] hash object: [hashlib.sha1()], [update], [hexdigest], with
    what the library documents of [update]: feeding nothing changes
    nothing, and repeated calls are one call with the concatenation. *)
Class Hasher := {
  hash_object : Type;
  hashlib_sha1 : hash_object;
  update : hash_object → list Byte.byte → hash_object;
  hexdigest : hash_object → string;
  update_empty : ∀ h, update h [] = h;
  update_concat : ∀ h a b, update (update h a) b = update h (a ++ b)
}.

(** [f.read(n)] on a file opened with ['rb']: the next [n] bytes, fewer at
    the end of the file, and the bytes still unread. *)
Definition read (n : nat) (unread : list Byte.byte)
  : list Byte.byte * list Byte.byte :=
  (take n unread, drop n unread).

(** [for chunk in iter(lambda: f.read(size), b""): hasher.update(chunk)]:
    the hash object at the end and the chunks it was fed, [None] when
    [fuel] iterations did not reach the empty chunk. *)
Fixpoint update_chunks `{Hasher} (size fuel : nat) (hasher : hash_object)
    (unread : list Byte.byte) : option (hash_object * list (list Byte.byte)) :=
  match fuel with
  | O => None
  | S fuel' =>
      let '(chunk, unread') := read size unread in
      match chunk with
      | [] => Some (hasher, [])
      | _ =>
          match update_chunks size fuel' (update hasher chunk) unread' with
          | Some (hasher', chunks) => Some (hasher', chunk :: chunks)
          | None => None
          end
      end
  end.

(** [hash_file(filepath)], which reads 4096 bytes at a time; [open_rb]
    gives the bytes of a file that can be opened, and [open] raises for
    the others.  A [read] that fails after the file was opened is outside
    this model. *)
Definition hash_file `{Hasher} (open_rb : string → option (list Byte.byte))
    (fuel : nat) (filepath : string) : option (result string) :=
  match open_rb filepath with
  | None => Some (Err (IOError filepath))
  | Some content =>
      match update_chunks 4096 fuel hashlib_sha1 content with
      | Some (hasher, _) => Some (Ok (hexdigest hasher))
      | None => None
      end
  end.

(** A hash object that keeps what it was fed, for running the loop. *)
#[export] Instance keeps_all : Hasher :=
  {| hash_object := list Byte.byte;
     hashlib_sha1 := [];
     update := λ h data, h ++ data;
     hexdigest := String.string_of_list_byte;
     update_empty := λ h, app_nil_r h;
     update_concat := λ h a b, eq_sym (app_assoc h a b) |}.

End HashFile.

(** ** [find_media_files] and the bottom of the scanner scripts *)

Module Discovery.

(** The [while] loop of [os.path.splitext] that looks for a character
    other than the dot before [dotIndex]. *)
Fixpoint has_non_dot_before (dotIndex : nat) (p : string) : bool :=
  match dotIndex, p with
  | S k, String c p' =>
      if Ascii.eqb c "."%char then has_non_dot_before k p' else true
  | _, _ => false
  end.

(** [os.path.splitext(filename)[1]] for a name as [os.walk] lists it,
    which holds no path separator: the text from the last dot on, when a
    character other than the dot comes before it, and the empty string
    otherwise. *)
Definition splitext_ext (filename : string) : string :=
  match Py.rfind "."%char filename with
  | Some dotIndex =>
      if has_non_dot_before dotIndex filename
      then Py.slice_from dotIndex filename
      else ""
  | None => ""
  end.

(** The dictionary [{'images': [...], 'videos': [...]}]. *)
Record media_files := {
  images : list string;
  videos : list string
}.

Section Walk.

Context `{Platform}.

(** What [os.walk(start_path)] yields: the directories with their file
    names. *)
Variable os_walk : string → list (string * list string).

(** The body of the inner loop. *)
Definition add_file (media : media_files) (dirpath filename : string)
  : media_files :=
  let ext := Py.lower (splitext_ext filename) in
  if ext_in ext IMAGE_EXTENSIONS then
    {| images := images media ++ [os_path_join dirpath filename];
       videos := videos media |}
  else if ext_in ext VIDEO_EXTENSIONS then
    {| images := images media;
       videos := videos media ++ [os_path_join dirpath filename] |}
  else media.

(** [find_media_files(start_path)]. *)
Definition find_media_files (start_path : string) : media_files :=
  foldl (λ media '(dirpath, filenames),
           foldl (λ media filename, add_file media dirpath filename)
                 media filenames)
        {| images := []; videos := [] |} (os_walk start_path).

(** [all_media_files], extended with what each path of
    [paths_to_search] gives. *)
Definition all_media_files (paths_to_search : list string) : media_files :=
  foldl (λ all path,
           let found := find_media_files path in
           {| images := images all ++ images found;
              videos := videos all ++ videos found |})
        {| images := []; videos := [] |} paths_to_search.

(** The bottom of [getmediainfo.py]: discovery, then one call of
    [find_duplicates_and_store] for the images and one for the videos. *)
Definition getmediainfo_script (w : World) (st : state)
    (paths_to_search : list string) : list event * state * outcome :=
  let all := all_media_files paths_to_search in
  GetMediaInfo.main w st (images all) (videos all).

(** The files of a walk joined to their directories, in the order of the
    walk, that satisfy a test on the file name. *)
Definition walked (test : string → bool) (walk : list (string * list string))
  : list string :=
  walk ≫= λ '(dirpath, filenames),
    os_path_join dirpath <$> List.filter test filenames.

Definition is_image (filename : string) : bool :=
  ext_in (Py.lower (splitext_ext filename)) IMAGE_EXTENSIONS.
Definition is_video (filename : string) : bool :=
  ext_in (Py.lower (splitext_ext filename)) VIDEO_EXTENSIONS.

End Walk.

End Discovery.

(** ** [update_duplicate_count], which no script calls *)

(** [UPDATE files SET duplicate = duplicate + 1 WHERE hash = ?]. *)
Definition update_duplicate_count (st : state) (file_hash : string) : state :=
  {| catalog :=
       (λ r, if decide (Catalog.hash r = file_hash)
             then {| Catalog.hash := Catalog.hash r;
                     Catalog.path := Catalog.path r;
                     Catalog.size := Catalog.size r;
                     Catalog.date_taken := Catalog.date_taken r;
                     Catalog.date_saved := Catalog.date_saved r;
                     Catalog.duplicate := Catalog.duplicate r + 1 |}
             else r) <$> catalog st;
     clock := clock st |}.

(** A file the scanner can fingerprint and stat. *)
Definition can_read (w : World) (file : string) : bool :=
  match sha1_hexdigest w file, os_path_getsize w file, os_path_getctime w file with
  | Some _, Some _, Some _ => true
  | _, _, _ => false
  end.

(** Every row has an unflagged row with its hash. *)
Definition has_unflagged (cat : list Catalog.row) : Prop :=
  ∀ r, r ∈ cat →
    ∃ r0, r0 ∈ cat ∧ Catalog.hash r0 = Catalog.hash r
          ∧ Catalog.duplicateFlag r0 = false.

(** The log records among the events of [reorder.py]. *)
Definition is_log (x : Reorder.record * Reorder.event) : bool :=
  match x.2 with
  | Reorder.LogSkippedDuplicate | Reorder.LogUnknownType
  | Reorder.LogMoved _ | Reorder.LogMoveError => true
  | Reorder.CallMakedirs _ | Reorder.CallMove _ => false
  end.

(** ** [reorder.py] on rows whose [date_taken] is not text *)

Module RawReorder.

(** What the column [date_taken] can hold and SQLite hands to
    [reorder.py]: text; a BLOB, which is what the scanner stores when the
    value of the EXIF tag is a [bytes] object; or NULL.  (A number is
    turned into text by the TEXT affinity of the column.)  The columns
    [path] and [hash] are text in every row the scanners write. *)
Inductive column :=
| Text (s : string)
| Blob (b : list Byte.byte)
| Null.

(** One element of [file_records]. *)
Definition record : Type := string * string * column.

Definition file_path (r : record) : string := r.1.1.
Definition file_hash (r : record) : string := r.1.2.
Definition date_taken (r : record) : column := r.2.

(** How a run ends: at the end of the rows, by the exception of
    [os.makedirs], or by the [TypeError] of lines 52 to 55. *)
Inductive ending :=
| Finished
| Ended (e : exception)
| EndedTypeError (r : record).

Definition trace : Type := list (record * Reorder.event).

Section Run.

Context `{Platform} `{Reorder.FileSystem}.

(** [os.path.join(base_dir, date_taken[:4])], [None] where Python raises
    [TypeError]: [None] cannot be sliced, and the slice of a [bytes]
    object is a [bytes] object, which cannot be joined to the [str]
    [base_dir]. *)
Definition destination_dir_of (base_dir : string) (r : record) : option string :=
  match date_taken r with
  | Text s => Some (os_path_join base_dir (Py.slice_to 4 s))
  | Blob _ => None
  | Null => None
  end.

(** The body of the loop over [file_records]. *)
Definition relocate (fs : Reorder.FS) (moved_files : gmap string string)
    (r : record) : trace * Reorder.FS * gmap string string * ending :=
  match moved_files !! file_hash r with
  | Some _ => ([(r, Reorder.LogSkippedDuplicate)], fs, moved_files, Finished)
  | None =>
      match Reorder.base_dir_of (file_path r) with
      | None => ([(r, Reorder.LogUnknownType)], fs, moved_files, Finished)
      | Some base_dir =>
          match destination_dir_of base_dir r with
          | None => ([], fs, moved_files, EndedTypeError r)
          | Some destination_dir =>
              match Reorder.os_makedirs fs destination_dir with
              | (fs, false) =>
                  ([(r, Reorder.CallMakedirs destination_dir)], fs, moved_files,
                   Ended (OSError destination_dir))
              | (fs, true) =>
                  let destination_path :=
                    os_path_join destination_dir (Path_name (file_path r)) in
                  let calls := [(r, Reorder.CallMakedirs destination_dir);
                                (r, Reorder.CallMove destination_path)] in
                  match Reorder.shutil_move fs (file_path r) destination_path with
                  | (fs, true) =>
                      (calls ++ [(r, Reorder.LogMoved destination_path)], fs,
                       <[file_hash r := destination_path]> moved_files,
                       Finished)
                  | (fs, false) =>
                      (calls ++ [(r, Reorder.LogMoveError)], fs, moved_files,
                       Finished)
                  end
              end
          end
      end
  end.

Fixpoint loop (fs : Reorder.FS) (moved_files : gmap string string)
    (file_records : list record)
  : trace * Reorder.FS * gmap string string * ending :=
  match file_records with
  | [] => ([], fs, moved_files, Finished)
  | r :: rest =>
      match relocate fs moved_files r with
      | (evs, fs', moved', Finished) =>
          let '(evs', fs'', moved'', o) := loop fs' moved' rest in
          (evs ++ evs', fs'', moved'', o)
      | stopped => stopped
      end
  end.

(** The script, on the rows it fetched. *)
Definition reorder (fs : Reorder.FS) (file_records : list record)
  : trace * Reorder.FS * gmap string string * ending :=
  loop fs ∅ file_records.

End Run.

(** The row of [Reorder] as a row with a text [date_taken], and the
    results of [Reorder] read as results of this module. *)
Definition text (r : Reorder.record) : record := (r.1.1, r.1.2, Text r.2).

Definition is_text (r : record) : bool :=
  match date_taken r with
  | Text _ => true
  | _ => false
  end.

Definition of_outcome (o : outcome) : ending :=
  match o with
  | Completed => Finished
  | Raised e => Ended e
  end.

Definition of_run `{Reorder.FileSystem}
    (x : Reorder.trace * Reorder.FS * gmap string string * outcome)
  : trace * Reorder.FS * gmap string string * ending :=
  (prod_map text id <$> x.1.1.1, x.1.1.2, x.1.2, of_outcome x.2).

(** Reading the parts of what a run returns. *)
Definition events_of `{Reorder.FileSystem}
    (x : trace * Reorder.FS * gmap string string * ending) : trace := x.1.1.1.
Definition moved_of `{Reorder.FileSystem}
    (x : trace * Reorder.FS * gmap string string * ending)
  : gmap string string := x.1.2.
Definition ending_of `{Reorder.FileSystem}
    (x : trace * Reorder.FS * gmap string string * ending) : ending := x.2.

End RawReorder.

(** ** More of the sample host *)

Module Samples.

(** The sample root after [gone.jpg] has been deleted. *)
Definition vanished : World :=
  {| sha1_hexdigest := sha1_hexdigest Host.root;
     os_path_getsize := λ p,
       if bool_decide (p = "/r/gone.jpg") then None else Some 2048;
     os_path_getctime := os_path_getctime Host.root;
     Image_getexif := Image_getexif Host.root;
     hachoir_metadata := hachoir_metadata Host.root;
     datetime_now := datetime_now Host.root |}.

(** The walk of the sample root. *)
Definition tree (start_path : string) : list (string * list string) :=
  [(start_path, ["a.JPG"; "notes.txt"; "v.mp4"]);
   (Host.join start_path "sub", ["b.jpg"])].

(** A file of three bytes. *)
Definition abc (filepath : string) : option (list Byte.byte) :=
  Some [Byte.x61; Byte.x62; Byte.x63].

End Samples.

(** Reading the parts of what a scan returns. *)
Definition scan_events (x : list event * state * outcome) : list event := x.1.1.
Definition scan_state (x : list event * state * outcome) : state := x.1.2.
Definition scan_outcome (x : list event * state * outcome) : outcome := x.2.

(** Reading the parts of what a loop returns. *)
Definition loop_events {S M : Type} {E : Type} (x : list E * S * M * outcome) : list E := x.1.1.1.
Definition loop_state {S M : Type} {E : Type} (x : list E * S * M * outcome) : S := x.1.1.2.
Definition loop_map {S M : Type} {E : Type} (x : list E * S * M * outcome) : M := x.1.2.
Definition loop_outcome {S M : Type} {E : Type} (x : list E * S * M * outcome) : outcome := x.2.

(** The paths the catalog holds. *)
Definition paths (st : state) : list string := Catalog.path <$> catalog st.

(** The three ways an iteration of the loop of [getmediainfo.py] can end:
    an exception, the skip of a path the catalog holds, or the insertion
    of a row [r] with the flag the two lookups give. *)
Inductive step_kind (w : World) (st : state) (hashes : gmap string string)
    (file : string) (st' : state) (hashes' : gmap string string)
  : outcome → Prop :=
| step_raised e :
    st' = st → hashes' = hashes →
    step_kind w st hashes file st' hashes' (Raised e)
| step_skipped :
    file ∈ paths st → catalog st' = catalog st → hashes' = hashes →
    step_kind w st hashes file st' hashes' Completed
| step_inserted r :
    file ∉ paths st →
    catalog st' = catalog st ++ [r] →
    Catalog.path r = file →
    hash_file w file = Ok (Catalog.hash r) →
    (Catalog.duplicate r = 1 ∧ hashes' = hashes ∧
       (is_Some (Catalog.select_hash (catalog st) (Catalog.hash r))
        ∨ is_Some (hashes !! Catalog.hash r))
     ∨ Catalog.duplicate r = 0 ∧
       hashes' = <[Catalog.hash r := Catalog.hash r]> hashes ∧
       Catalog.select_hash (catalog st) (Catalog.hash r) = None ∧
       hashes !! Catalog.hash r = None) →
    step_kind w st hashes file st' hashes' Completed.

(** * Properties *)

(** ** The catalog queries *)

Section CatalogFacts.

Import Catalog.

Lemma count_path_exists (cat : list row) (p : string) :
  (0 <? count_path cat p)%nat = true ↔ p ∈ path <$> cat.
Proof.
  unfold count_path. rewrite Nat.ltb_lt.
  induction cat as [|r cat IH]; simpl.
  - split; [lia | intros Hin; inversion Hin].
  - rewrite filter_cons, elem_of_cons.
    destruct (decide (path r = p)) as [->|Hne]; simpl.
    + split; [by left | lia].
    + rewrite IH. split; [by right | intros [Heq|Hin]; [congruence | done]].
Qed.

Lemma count_path_absent (cat : list row) (p : string) :
  (0 <? count_path cat p)%nat = false ↔ p ∉ path <$> cat.
Proof.
  rewrite <- count_path_exists. destruct (0 <? count_path cat p)%nat; naive_solver.
Qed.

Lemma select_hash_None (cat : list row) (h : string) :
  select_hash cat h = None ↔ ∀ r, r ∈ cat → hash r ≠ h.
Proof.
  unfold select_hash.
  induction cat as [|r cat IH]; simpl.
  - split; [intros _ r Hin; inversion Hin | done].
  - rewrite filter_cons.
    destruct (decide (hash r = h)) as [Heq|Hne]; simpl.
    + split; [done | intros Hall; exfalso; apply (Hall r); [left | done]].
    + rewrite IH. split.
      * intros Hall r0 [->|Hin]%elem_of_cons; auto.
      * intros Hall r0 Hin. apply Hall. by right.
Qed.

Lemma select_hash_Some (cat : list row) (h : string) :
  is_Some (select_hash cat h) ↔ ∃ r, r ∈ cat ∧ hash r = h.
Proof.
  rewrite <- not_eq_None_Some, select_hash_None. split.
  - intros Hn. destruct (decide (Exists (λ r, hash r = h) cat)) as [Hex|Hnex].
    + apply Exists_exists in Hex. exact Hex.
    + exfalso. apply Hn. intros r Hin Heq. apply Hnex, Exists_exists. eauto.
  - intros (r & Hin & Heq) Hall. by apply (Hall r).
Qed.

(** Appending a row keeps the invariant when the row is flagged or its
    hash is new. *)
Lemma first_wins_insert (cat : list row) (r : row) :
  first_wins cat →
  (duplicateFlag r = true ∨ ∀ r0, r0 ∈ cat → hash r0 ≠ hash r) →
  first_wins (insert cat r).
Proof.
  intros Hinv Hnew i j ri rj Hij Hi Hj Heq. unfold insert in *.
  apply lookup_app_Some in Hj as [Hj | [Hlen Hj]].
  - apply lookup_app_Some in Hi as [Hi | [Hlen _]].
    + by apply (Hinv i j ri rj).
    + apply lookup_lt_Some in Hj. lia.
  - destruct (j - length cat)%nat as [|k] eqn:Hk; [|by destruct k].
    simpl in Hj. injection Hj as <-.
    destruct Hnew as [Hflag | Hfresh]; [done |].
    apply lookup_app_Some in Hi as [Hi | [Hlen' _]]; [| lia].
    exfalso. apply (Hfresh ri); [| done].
    apply list_elem_of_lookup. eauto.
Qed.

Lemma first_wins_from_sound (cat : list row) (seen : list string) :
  first_wins_from seen cat = true →
  first_wins cat ∧
  ∀ j rj, cat !! j = Some rj → hash rj ∈ seen → duplicateFlag rj = true.
Proof.
  revert seen. induction cat as [|r cat IH]; intros seen Hchk.
  - split; [intros i j ri rj _ Hi; inversion Hi | intros j rj Hj; inversion Hj].
  - simpl in Hchk. apply andb_prop in Hchk as [Hr Hrest].
    destruct (IH _ Hrest) as [Hinv Hseen]. split.
    + intros i j ri rj Hij Hi Hj Heq.
      destruct j as [|j]; [lia |]. simpl in Hj.
      destruct i as [|i]; simpl in Hi.
      * injection Hi as <-. apply (Hseen j rj Hj). rewrite <- Heq. by left.
      * apply (Hinv i j ri rj); [lia | done..].
    + intros [|j] rj Hj Hin; simpl in Hj.
      * injection Hj as <-. apply orb_prop in Hr as [Hnew | Hflag]; [| done].
        apply negb_true_iff, bool_decide_eq_false in Hnew. done.
      * apply (Hseen j rj Hj). by right.
Qed.

Lemma first_wins_checked (cat : list row) :
  first_wins_from [] cat = true → first_wins cat.
Proof. intros Hchk. by apply first_wins_from_sound in Hchk as [? _]. Qed.

Lemma select_hash_insert_mono (cat : list row) (r : row) (h : string) :
  is_Some (select_hash cat h) → is_Some (select_hash (insert cat r) h).
Proof.
  rewrite !select_hash_Some. intros (r0 & Hin & Heq).
  exists r0. split; [| done]. unfold insert. apply elem_of_app. by left.
Qed.

Lemma select_hash_insert_new (cat : list row) (r : row) :
  is_Some (select_hash (insert cat r) (hash r)).
Proof.
  rewrite select_hash_Some. exists r. split; [| done].
  unfold insert. apply elem_of_app. right. by left.
Qed.

(** The invariant gives the reading of the claim: the unflagged row of a
    hash is unique and comes first. *)
Lemma first_wins_unflagged (cat : list row) :
  first_wins cat → unflagged_is_earliest cat.
Proof.
  intros Hinv j rj Hj Hflag i ri Hi Heq Hne.
  destruct (decide (i < j)%nat) as [Hlt|Hge].
  - rewrite (Hinv i j ri rj Hlt Hi Hj Heq) in Hflag. done.
  - assert (j < i)%nat as Hlt by lia. split; [done |].
    by apply (Hinv j i rj ri).
Qed.

End CatalogFacts.

(** ** getmediainfo.py: one file *)

Section ProcessFile.

Import Catalog GetMediaInfo.
Context `{Platform}.
Variable w : World.

(** Whether [get_file_info] raises does not depend on the clock. *)
Lemma get_file_info_clock (n m : nat) (file : string) :
  match get_file_info w n file, get_file_info w m file with
  | (evs, Err e), (evs', Err e') => evs = evs' ∧ e = e'
  | (evs, Ok (size, taken, _)), (evs', Ok (size', taken', _)) =>
      evs = evs' ∧ size = size' ∧ taken = taken'
  | _, _ => False
  end.
Proof.
  unfold get_file_info.
  destruct (os_path_getsize w file); [| done].
  destruct (embedded_date w file) as [evs d].
  destruct (if not_ d then creation_date w file else Ok (default "" d)); done.
Qed.

Lemma process_file_kind st hashes file evs st' hashes' o :
  process_file w st hashes file = (evs, st', hashes', o) →
  step_kind w st hashes file st' hashes' o.
Proof.
  unfold process_file.
  destruct (hash_file w file) as [file_hash|e] eqn:Hhash.
  2: { intros [= <- <- <- <-]. by constructor. }
  destruct (get_file_info w (clock st) file) as [evs0 [[[size taken] saved]|e]].
  2: { intros [= <- <- <- <-]. by constructor. }
  simpl.
  destruct (0 <? count_path (catalog st) file)%nat eqn:Hexists.
  { intros [= <- <- <- <-]. apply step_skipped; [| done..].
    by apply count_path_exists. }
  apply count_path_absent in Hexists.
  destruct (select_hash (catalog st) file_hash) as [db_entry|] eqn:Hdb.
  { intros [= <- <- <- <-].
    apply (step_inserted _ _ _ _ _ _ (Build_row file_hash file size taken saved 1));
      simpl; [done.. |].
    left. rewrite Hdb. eauto. }
  destruct (hashes !! file_hash) as [seen|] eqn:Hseen.
  - intros [= <- <- <- <-].
    apply (step_inserted _ _ _ _ _ _ (Build_row file_hash file size taken saved 1));
      simpl; [done.. |].
    left. rewrite Hseen. eauto.
  - intros [= <- <- <- <-].
    apply (step_inserted _ _ _ _ _ _ (Build_row file_hash file size taken saved 0));
      simpl; [done.. |].
    right. done.
Qed.

End ProcessFile.

(** ** getmediainfo.py: the loop *)

Section Scan.

Import Catalog GetMediaInfo.
Context `{Platform}.
Variable w : World.

Lemma step_first_wins st hashes file st' hashes' o :
  step_kind w st hashes file st' hashes' o →
  first_wins (catalog st) → first_wins (catalog st').
Proof.
  intros [e -> _ | _ -> _ | r _ -> _ _ Hflag] Hinv; [done | done |].
  apply (first_wins_insert _ r Hinv).
  destruct Hflag as [(Hdup & _) | (_ & _ & Hdb & _)].
  - left. unfold duplicateFlag. by rewrite Hdup.
  - right. by apply select_hash_None.
Qed.

Lemma step_paths_mono st hashes file st' hashes' o (p : string) :
  step_kind w st hashes file st' hashes' o →
  p ∈ paths st → p ∈ paths st'.
Proof.
  unfold paths.
  intros [e -> _ | _ -> _ | r _ -> _ _ _] Hin; [done | done |].
  rewrite fmap_app. apply elem_of_app. by left.
Qed.

Lemma step_completed_path st hashes file st' hashes' :
  step_kind w st hashes file st' hashes' Completed → file ∈ paths st'.
Proof.
  unfold paths. intros Hstep.
  inversion Hstep as [ | Hin Hcat _ | r _ Hcat Hpath _ _]; rewrite Hcat.
  - done.
  - rewrite fmap_app. apply elem_of_app. right. simpl. rewrite Hpath. by left.
Qed.

Lemma step_NoDup st hashes file st' hashes' o :
  step_kind w st hashes file st' hashes' o →
  NoDup (paths st) → NoDup (paths st').
Proof.
  unfold paths.
  intros [e -> _ | _ -> _ | r Hnew -> Hpath _ _] Hnd; [done | done |].
  rewrite fmap_app. apply NoDup_app. split_and!; [done | | apply NoDup_singleton].
  intros p Hp [->|Hnil]%elem_of_cons; [| inversion Hnil].
  apply Hnew. by rewrite <- Hpath.
Qed.

(** A property of the catalog that every iteration keeps is kept by the
    loop. *)
Lemma loop_preserves (P : state → Prop) :
  (∀ st hashes file st' hashes' o,
      step_kind w st hashes file st' hashes' o → P st → P st') →
  ∀ files st hashes, P st → P (loop_state (loop w st hashes files)).
Proof.
  intros Hstep files. induction files as [|file rest IH]; intros st hashes HP.
  - done.
  - simpl.
    destruct (process_file w st hashes file) as [[[evs st1] hashes1] o] eqn:Hbody.
    apply process_file_kind in Hbody.
    assert (P st1) as HP1 by (by eapply Hstep).
    destruct o; [| done].
    specialize (IH st1 hashes1 HP1).
    by destruct (loop w st1 hashes1 rest) as [[[evs' st2] hashes2] o'].
Qed.

Lemma find_duplicates_and_store_loop st files :
  scan_state (find_duplicates_and_store w st files)
  = loop_state (loop w st ∅ files).
Proof.
  unfold find_duplicates_and_store.
  by destruct (loop w st ∅ files) as [[[evs st'] hashes'] o].
Qed.

Lemma scan_first_wins st files :
  first_wins (catalog st) →
  first_wins (catalog (scan_state (find_duplicates_and_store w st files))).
Proof.
  intros Hinv. rewrite find_duplicates_and_store_loop.
  apply (loop_preserves (λ st, first_wins (catalog st))); [| done].
  intros. by eapply step_first_wins.
Qed.

(** *** Scanning again *)

Lemma loop_state_cons st hashes file rest :
  loop_state (loop w st hashes (file :: rest))
  = match process_file w st hashes file with
    | (_, st', hashes', Completed) => loop_state (loop w st' hashes' rest)
    | (_, st', _, Raised _) => st'
    end.
Proof.
  simpl. destruct (process_file w st hashes file) as [[[evs st1] hashes1] [|e]]; [| done].
  by destruct (loop w st1 hashes1 rest) as [[[evs' st2] hashes2] o'].
Qed.

Lemma loop_outcome_cons st hashes file rest :
  loop_outcome (loop w st hashes (file :: rest))
  = match process_file w st hashes file with
    | (_, st', hashes', Completed) => loop_outcome (loop w st' hashes' rest)
    | (_, _, _, Raised e) => Raised e
    end.
Proof.
  simpl. destruct (process_file w st hashes file) as [[[evs st1] hashes1] [|e]]; [| done].
  by destruct (loop w st1 hashes1 rest) as [[[evs' st2] hashes2] o'].
Qed.

(** Whether an iteration raises depends on the file alone. *)
Lemma process_file_outcome st hashes st2 hashes2 file :
  loop_outcome (process_file w st hashes file)
  = loop_outcome (process_file w st2 hashes2 file).
Proof.
  unfold process_file. destruct (hash_file w file); [| done].
  pose proof (get_file_info_clock w (clock st) (clock st2) file) as Hclock.
  destruct (get_file_info w (clock st) file) as [evs [[[size taken] saved]|e]],
           (get_file_info w (clock st2) file) as [evs2 [[[size2 taken2] saved2]|e2]];
    try done.
  - simpl. by repeat case_match.
  - by destruct Hclock as [_ ->].
Qed.

Lemma loop_outcome_files st hashes st2 hashes2 files :
  loop_outcome (loop w st hashes files) = loop_outcome (loop w st2 hashes2 files).
Proof.
  revert st hashes st2 hashes2.
  induction files as [|file rest IH]; intros st hashes st2 hashes2; [done |].
  rewrite !loop_outcome_cons.
  pose proof (process_file_outcome st hashes st2 hashes2 file) as Ho.
  destruct (process_file w st hashes file) as [[[evs st1] hashes1] o],
           (process_file w st2 hashes2 file) as [[[evs2 st3] hashes3] o2].
  unfold loop_outcome in Ho. simpl in Ho. subst o2.
  destruct o; [apply IH | done].
Qed.

Lemma loop_paths_mono files st hashes (p : string) :
  p ∈ paths st → p ∈ paths (loop_state (loop w st hashes files)).
Proof.
  apply (loop_preserves (λ st, p ∈ paths st)).
  intros. by eapply step_paths_mono.
Qed.

(** A loop over files whose paths the catalog will hold after a first
    loop inserts nothing into a catalog that holds those paths. *)
Lemma loop_rescan files st hashes st2 hashes2 :
  (∀ p, p ∈ paths (loop_state (loop w st hashes files)) → p ∈ paths st2) →
  catalog (loop_state (loop w st2 hashes2 files)) = catalog st2.
Proof.
  revert st hashes st2 hashes2.
  induction files as [|file rest IH]; intros st hashes st2 hashes2 Hheld; [done |].
  rewrite loop_state_cons in Hheld. rewrite loop_state_cons.
  pose proof (process_file_outcome st hashes st2 hashes2 file) as Ho.
  destruct (process_file w st hashes file) as [[[evs st1] hashes1] o] eqn:Hbody,
           (process_file w st2 hashes2 file) as [[[evs2 st3] hashes3] o2] eqn:Hbody2.
  unfold loop_outcome in Ho. simpl in Ho. subst o2.
  apply process_file_kind in Hbody, Hbody2.
  destruct o as [|e].
  - assert (file ∈ paths st2) as Hfile.
    { apply Hheld, loop_paths_mono. by eapply step_completed_path. }
    inversion Hbody2 as [ | _ Hcat _ | r Hnew _ _ _ _]; [| done].
    rewrite <- Hcat. apply (IH st1 hashes1).
    intros p Hp. unfold paths. rewrite Hcat. by apply Hheld.
  - by inversion Hbody2 as [e' -> _ | | ].
Qed.

Lemma scan_outcome_loop st files :
  scan_outcome (find_duplicates_and_store w st files)
  = loop_outcome (loop w st ∅ files).
Proof.
  unfold find_duplicates_and_store.
  by destruct (loop w st ∅ files) as [[[evs st'] hashes'] o].
Qed.

Lemma scan_paths_mono st files (p : string) :
  p ∈ paths st → p ∈ paths (scan_state (find_duplicates_and_store w st files)).
Proof. rewrite find_duplicates_and_store_loop. apply loop_paths_mono. Qed.

Lemma scan_rescan st files st2 :
  (∀ p, p ∈ paths (scan_state (find_duplicates_and_store w st files)) →
        p ∈ paths st2) →
  catalog (scan_state (find_duplicates_and_store w st2 files)) = catalog st2.
Proof.
  rewrite !find_duplicates_and_store_loop. apply loop_rescan.
Qed.

Lemma main_state st images videos :
  scan_state (main w st images videos)
  = match scan_outcome (find_duplicates_and_store w st images) with
    | Completed =>
        scan_state
          (find_duplicates_and_store w
             (scan_state (find_duplicates_and_store w st images)) videos)
    | Raised _ => scan_state (find_duplicates_and_store w st images)
    end.
Proof.
  unfold main.
  destruct (find_duplicates_and_store w st images) as [[evs st1] [|e]]; [| done].
  unfold scan_outcome, scan_state. simpl.
  by destruct (find_duplicates_and_store w st1 videos) as [[evs' st2] o].
Qed.

Lemma main_rescan st images videos :
  let st1 := scan_state (main w st images videos) in
  catalog (scan_state (main w st1 images videos)) = catalog st1.
Proof.
  intros st1.
  pose proof (main_state st images videos) as Hst1. fold st1 in Hst1.
  set (first := find_duplicates_and_store w st images) in *.
  assert (scan_outcome (find_duplicates_and_store w st1 images)
          = scan_outcome first) as Ho.
  { unfold first. rewrite !scan_outcome_loop. apply loop_outcome_files. }
  rewrite main_state, Ho.
  destruct (scan_outcome first) eqn:Hfo.
  - assert (catalog (scan_state (find_duplicates_and_store w st1 images))
            = catalog st1) as Hsame.
    { apply (scan_rescan st images). fold first.
      intros p Hp. rewrite Hst1. by apply scan_paths_mono. }
    etrans; [| exact Hsame]. apply (scan_rescan (scan_state first)).
    intros p Hp. unfold paths. rewrite Hsame. by rewrite Hst1.
  - apply (scan_rescan st images). fold first. intros p Hp. by rewrite Hst1.
Qed.

Lemma main_first_wins st images videos :
first_wins (catalog st) →
first_wins (catalog (scan_state (main w st images videos))).
Proof.
intros Hinv. rewrite main_state.
destruct (scan_outcome (find_duplicates_and_store w st images));
  auto using scan_first_wins.
Qed.

(** C1, as amended.  When every row of the starting catalog that follows
    a row with the same content hash is flagged (the empty catalog is
    such a catalog), the same holds of the catalog that
    [find_duplicates_and_store] of [getmediainfo.py] leaves, and of the
    catalog the whole script leaves after its two calls, whether the run
    completes or is ended by an exception: among the rows sharing a hash
    at most one is unflagged, it is the earliest of them, and every later
    one is flagged. *)
Theorem C1_first_seen_wins_preserved st files images videos :
first_wins (catalog st) →
(let cat' := catalog (scan_state (find_duplicates_and_store w st files)) in
 first_wins cat' ∧ unflagged_is_earliest cat')
∧ (let cat' := catalog (scan_state (main w st images videos)) in
   first_wins cat' ∧ unflagged_is_earliest cat').
Proof.
intros Hinv.
pose proof (scan_first_wins st files Hinv) as Hscan.
pose proof (main_first_wins st images videos Hinv) as Hmain.
split; (split; [done | by apply first_wins_unflagged]).
Qed.

(** C3, as amended.  A second run of the scanner of [getmediainfo.py]
    over the same files, in the same world, adds no row to the catalog:
    this holds of one call of its [find_duplicates_and_store] and of the
    whole script (images, then videos), also when a run is ended by an
    exception.  A file whose path the catalog holds is never inserted by
    it, and so the paths of the catalog stay pairwise distinct when they
    were.  The scanner of [findmediafiles.py], which has no path query,
    is left out: it inserts every path again. *)
Theorem C3_rescan_adds_no_row st files images videos :
  (let st1 := scan_state (find_duplicates_and_store w st files) in
   catalog (scan_state (find_duplicates_and_store w st1 files)) = catalog st1)
  ∧ (let st1 := scan_state (main w st images videos) in
     catalog (scan_state (main w st1 images videos)) = catalog st1)
  ∧ (∀ hashes file,
       file ∈ paths st →
       catalog (loop_state (process_file w st hashes file)) = catalog st)
  ∧ (NoDup (paths st) →
     NoDup (paths (scan_state (find_duplicates_and_store w st files)))
     ∧ NoDup (paths (scan_state (main w st images videos)))).
Proof.
  split_and!.
  - simpl. by apply (scan_rescan st).
  - apply main_rescan.
  - intros hashes file Hin.
    destruct (process_file w st hashes file) as [[[evs st1] hashes1] o] eqn:Hbody.
    apply process_file_kind in Hbody. unfold loop_state. simpl.
    by inversion Hbody as [e -> _ | _ Hcat _ | r Hnew _ _ _ _].
  - intros Hnd.
    assert (∀ st files, NoDup (paths st) →
              NoDup (paths (scan_state (find_duplicates_and_store w st files))))
      as Hscan.
    { intros st0 files0 Hnd0. rewrite find_duplicates_and_store_loop.
      apply (loop_preserves (λ st, NoDup (paths st))); [| done].
      intros. by eapply step_NoDup. }
    split; [by apply Hscan |].
    rewrite main_state.
    destruct (scan_outcome (find_duplicates_and_store w st images));
      auto.
Qed.

(** C4.  When an iteration inserts a row [r], the row is flagged exactly
    when the catalog query for its hash returned a row or the hash was
    in the dictionary [hashes] of this call; in that case the dictionary
    is left as it was, and otherwise the row is stored with flag 0 and
    its hash is added to the dictionary. *)
Theorem C4_flag_of_inserted_row st hashes file evs st' hashes' r :
  process_file w st hashes file = (evs, st', hashes', Completed) →
  catalog st' = catalog st ++ [r] →
  let known := is_Some (select_hash (catalog st) (hash r))
               ∨ is_Some (hashes !! hash r) in
  hash_file w file = Ok (hash r) ∧ path r = file
  ∧ (duplicateFlag r = true ↔ known)
  ∧ (known → duplicate r = 1 ∧ hashes' = hashes)
  ∧ (¬ known → duplicate r = 0 ∧ hashes' = <[hash r := hash r]> hashes).
Proof.
  intros Hbody Hcat known. apply process_file_kind in Hbody.
  inversion Hbody as [ | _ Hsame _ | r0 _ Hcat0 Hpath Hhash Hflag].
  { rewrite Hsame in Hcat. apply (f_equal length) in Hcat.
    rewrite length_app in Hcat. simpl in Hcat. lia. }
  rewrite Hcat in Hcat0. apply app_inv_head in Hcat0. injection Hcat0 as ->.
  unfold known, duplicateFlag.
  destruct Hflag as [(Hdup & Hh & Hknown) | (Hdup & Hh & Hdb & Hseen)];
    rewrite Hdup; simpl.
  - split_and!; [done | done | done | done | done].
  - assert (¬ (is_Some (select_hash (catalog st) (hash r0))
               ∨ is_Some (hashes !! hash r0))) as Hnot.
    { rewrite Hdb, Hseen. intros [[? [=]] | [? [=]]]. }
    split_and!; [done | done | | done | done].
    split; [done | intros; by exfalso].
Qed.

(** *** The dictionary against the catalog *)

(** While every hash of the dictionary is a hash of the catalog, the
    body of the loop and the body without the dictionary do the same,
    and the next dictionary is again within the next catalog. *)
Lemma process_file_catalog_only_eq st hashes file :
  (∀ h, is_Some (hashes !! h) → is_Some (select_hash (catalog st) h)) →
  let step := process_file w st hashes file in
  process_file_catalog_only w st file
  = (loop_events step, loop_state step, loop_outcome step)
  ∧ (∀ h, is_Some (loop_map step !! h) →
          is_Some (select_hash (catalog (loop_state step)) h)).
Proof.
  intros Hseen. unfold process_file, process_file_catalog_only.
  destruct (hash_file w file) as [file_hash|e]; [| done].
  destruct (get_file_info w (clock st) file) as [evs0 [[[size taken] saved]|e]];
    [| done].
  simpl. destruct (0 <? count_path (catalog st) file)%nat; [done |].
  destruct (select_hash (catalog st) file_hash) as [db_entry|] eqn:Hdb.
  { split; [done |]. intros h Hh. simpl.
    apply select_hash_insert_mono, Hseen, Hh. }
  destruct (hashes !! file_hash) as [seen|] eqn:Hin.
  { exfalso. destruct (Hseen file_hash) as [x Hx]; [by rewrite Hin |].
    congruence. }
  split; [done |]. intros h. unfold loop_map, loop_state. simpl.
  destruct (decide (file_hash = h)) as [<-|Hne].
  - intros _.
    apply (select_hash_insert_new _ (Build_row file_hash file size taken saved 0)).
  - rewrite lookup_insert_ne by done. intros Hh.
    apply select_hash_insert_mono, Hseen, Hh.
Qed.

Lemma loop_catalog_only files st hashes :
  (∀ h, is_Some (hashes !! h) → is_Some (select_hash (catalog st) h)) →
  let run := loop w st hashes files in
  find_duplicates_and_store_catalog_only w st files
  = (loop_events run, loop_state run, loop_outcome run)
  ∧ (∀ h, is_Some (loop_map run !! h) →
          is_Some (select_hash (catalog (loop_state run)) h)).
Proof.
  revert st hashes.
  induction files as [|file rest IH]; intros st hashes Hseen; [done |].
  destruct (process_file_catalog_only_eq st hashes file Hseen) as [Hbody Hseen'].
  simpl. rewrite Hbody.
  destruct (process_file w st hashes file) as [[[evs st1] hashes1] [|e]];
    unfold loop_events, loop_state, loop_map, loop_outcome in *; simpl in *;
    [| done].
  destruct (IH st1 hashes1 Hseen') as [Hrest Hseen''].
  rewrite Hrest.
  by destruct (loop w st1 hashes1 rest) as [[[evs' st2] hashes2] o'].
Qed.

(** C9.  The loop of [find_duplicates_and_store] and the loop without
    the dictionary [hashes], which takes the flag from the catalog query
    alone, return the same events, the same catalog and the same
    outcome for every world, starting catalog and list of files: every
    hash of the dictionary is the hash of a committed row, so the
    [elif file_hash in hashes] branch is never the one that decides. *)
Theorem C9_seen_set_is_redundant st files :
  find_duplicates_and_store w st files
  = find_duplicates_and_store_catalog_only w st files
  ∧ (∀ h, is_Some (loop_map (loop w st ∅ files) !! h) →
          is_Some (select_hash
                     (catalog (scan_state (find_duplicates_and_store w st files)))
                     h)).
Proof.
  destruct (loop_catalog_only files st ∅) as [Heq Hseen].
  { intros h [x Hx]. by rewrite lookup_empty in Hx. }
  rewrite find_duplicates_and_store_loop. split; [| done].
  rewrite Heq. unfold find_duplicates_and_store.
  by destruct (loop w st ∅ files) as [[[evs st'] hashes'] o].
Qed.

(** *** Exceptions and the order of the calls *)

Lemma loop_app pre rest st hashes :
  loop w st hashes (pre ++ rest)
  = match loop w st hashes pre with
    | (evs, st', hashes', Completed) =>
        let '(evs', st'', hashes'', o) := loop w st' hashes' rest in
        (evs ++ evs', st'', hashes'', o)
    | stopped => stopped
    end.
Proof.
  revert st hashes. induction pre as [|file pre IH]; intros st hashes.
  - simpl. by destruct (loop w st hashes rest) as [[[evs st'] hashes'] o].
  - simpl.
    destruct (process_file w st hashes file) as [[[evs st1] hashes1] [|e]]; [| done].
    rewrite IH.
    destruct (loop w st1 hashes1 pre) as [[[evs1 st2] hashes2] [|e]]; [| done].
    destruct (loop w st2 hashes2 rest) as [[[evs2 st3] hashes3] o].
    by rewrite app_assoc.
Qed.

(** C5, as amended.  [hash_file] is called outside any [try]: when it
    raises for a file, the call of [find_duplicates_and_store] ends
    there with that exception.  The rows inserted for the files before
    it stay committed, and no file after it is looked at. *)
Theorem C5_unreadable_file_ends_run st pre file rest e evs st' hashes' :
  hash_file w file = Err e →
  loop w st ∅ pre = (evs, st', hashes', Completed) →
  find_duplicates_and_store w st (pre ++ file :: rest)
  = (evs ++ [CallHashFile file], st', Raised e).
Proof.
  intros Hhash Hpre. unfold find_duplicates_and_store.
  rewrite loop_app, Hpre. simpl. unfold process_file. by rewrite Hhash.
Qed.

(** C6, as amended.  For a file whose path the catalog holds, no row is
    inserted and the dictionary is left alone, but [hash_file] and
    [get_file_info] are called first and the path query comes after
    them: the iteration ends the run when one of the two raises, and
    otherwise logs the skip together with the hash it computed. *)
Theorem C6_cataloged_path_is_hashed_then_skipped st hashes file :
  file ∈ paths st →
  process_file w st hashes file
  = match hash_file w file with
    | Err e => ([CallHashFile file], st, hashes, Raised e)
    | Ok file_hash =>
        match get_file_info w (clock st) file with
        | (evs, Err e) =>
            (CallHashFile file :: CallGetFileInfo file :: evs,
             st, hashes, Raised e)
        | (evs, Ok _) =>
            ((CallHashFile file :: CallGetFileInfo file :: evs)
               ++ [SelectCountPath file; LogSkippedSamePath file file_hash],
             {| catalog := catalog st; clock := S (clock st) |},
             hashes, Completed)
        end
    end.
Proof.
  intros Hin. apply count_path_exists in Hin. unfold process_file.
  destruct (hash_file w file) as [file_hash|e]; [| done].
  destruct (get_file_info w (clock st) file) as [evs [[[size taken] saved]|e]];
    [| done].
  simpl. by rewrite Hin.
Qed.

End Scan.

(** ** reorder.py *)

Section Reorganize.

Import Reorder.
Context `{Platform} `{FileSystem}.

Lemma relocate_recorded fs (moved_files : gmap string string) r :
  is_Some (moved_files !! file_hash r) →
  relocate fs moved_files r
  = ([(r, LogSkippedDuplicate)], fs, moved_files, Completed).
Proof. intros [d Hd]. unfold relocate. by rewrite Hd. Qed.

(** What the events of one iteration tell. *)
Lemma relocate_events fs (moved_files : gmap string string) r :
  let step := relocate fs moved_files r in
  (∀ x, x ∈ loop_events step → x.1 = r)
  ∧ (moved_files !! file_hash r = None →
     ∀ x, x ∈ loop_events step → x.2 ≠ LogSkippedDuplicate)
  ∧ (∀ i x d, loop_events step !! i = Some (x, LogMoved d) →
       moved_files !! file_hash r = None
       ∧ loop_map step = <[file_hash r := d]> moved_files
       ∧ length (loop_events step) = S i)
  ∧ ((∀ x d, (x, LogMoved d) ∉ loop_events step) → loop_map step = moved_files).
Proof.
  unfold relocate.
  destruct (moved_files !! file_hash r) as [seen|] eqn:Hseen.
  { unfold loop_events, loop_map. simpl. split_and!.
    - by intros x ->%list_elem_of_singleton.
    - done.
    - intros [|i] x d Hi; simpl in Hi; [by injection Hi | done].
    - done. }
  destruct (base_dir_of (file_path r)) as [base_dir|].
  2: { unfold loop_events, loop_map. simpl. split_and!.
    - by intros x ->%list_elem_of_singleton.
    - by intros _ x ->%list_elem_of_singleton.
    - intros [|i] x d Hi; simpl in Hi; [by injection Hi | done].
    - done. }
  destruct (os_makedirs fs (destination_dir_of base_dir r)) as [fs1 [|]].
  2: { unfold loop_events, loop_map. simpl. split_and!.
    - by intros x ->%list_elem_of_singleton.
    - by intros _ x ->%list_elem_of_singleton.
    - intros [|i] x d Hi; simpl in Hi; [by injection Hi | done].
    - done. }
  destruct (shutil_move fs1 (file_path r) (destination_path_of base_dir r))
    as [fs2 [|]]; unfold loop_events, loop_map; simpl; split_and!.
  - intros x Hx. repeat (apply elem_of_cons in Hx as [-> | Hx]; [done |]).
    inversion Hx.
  - intros _ x Hx. repeat (apply elem_of_cons in Hx as [-> | Hx]; [done |]).
    inversion Hx.
  - intros [|[|[|i]]] x d Hi; simpl in Hi; try done.
    by injection Hi as <- <-.
  - intros Hnone. exfalso. eapply Hnone. do 2 right. left.
  - intros x Hx. repeat (apply elem_of_cons in Hx as [-> | Hx]; [done |]).
    inversion Hx.
  - intros _ x Hx. repeat (apply elem_of_cons in Hx as [-> | Hx]; [done |]).
    inversion Hx.
  - intros [|[|[|i]]] x d Hi; simpl in Hi; done.
  - done.
Qed.

Lemma reorder_loop_cons fs (moved_files : gmap string string) r rest :
  loop fs moved_files (r :: rest)
  = match relocate fs moved_files r with
    | (evs, fs', moved', Completed) =>
        let '(evs', fs'', moved'', o) := loop fs' moved' rest in
        (evs ++ evs', fs'', moved'', o)
    | stopped => stopped
    end.
Proof. done. Qed.

(** A recorded hash stays recorded, with the destination it got. *)
Lemma relocate_keeps fs (moved_files : gmap string string) r h d :
  moved_files !! h = Some d →
  loop_map (relocate fs moved_files r) !! h = Some d.
Proof.
  intros Hh. unfold relocate.
  destruct (moved_files !! file_hash r) as [seen|] eqn:Hseen; [done |].
  destruct (base_dir_of (file_path r)) as [base_dir|]; [| done].
  destruct (os_makedirs fs (destination_dir_of base_dir r)) as [fs1 [|]]; [| done].
  destruct (shutil_move fs1 (file_path r) (destination_path_of base_dir r))
    as [fs2 [|]]; [| done].
  unfold loop_map. simpl. rewrite lookup_insert_ne; [done | congruence].
Qed.

Lemma reorder_loop_keeps file_records fs (moved_files : gmap string string) h d :
  moved_files !! h = Some d →
  loop_map (loop fs moved_files file_records) !! h = Some d.
Proof.
  revert fs moved_files.
  induction file_records as [|r rest IH]; intros fs moved_files Hh; [done |].
  rewrite reorder_loop_cons.
  pose proof (relocate_keeps fs moved_files r h d Hh) as Hstep.
  destruct (relocate fs moved_files r) as [[[evs fs1] moved1] [|e]]; [| done].
  specialize (IH fs1 moved1 Hstep).
  by destruct (loop fs1 moved1 rest) as [[[evs' fs2] moved2] o].
Qed.

(** The event of a row whose hash is recorded is the skip. *)
Lemma reorder_loop_recorded file_records fs (moved_files : gmap string string) x :
  x ∈ loop_events (loop fs moved_files file_records) →
  is_Some (moved_files !! file_hash x.1) →
  x.2 = LogSkippedDuplicate.
Proof.
  revert fs moved_files.
  induction file_records as [|r rest IH]; intros fs moved_files Hx Hrec.
  { inversion Hx. }
  rewrite reorder_loop_cons in Hx.
  destruct (relocate_events fs moved_files r) as (Hsame & _ & _ & _).
  pose proof (relocate_recorded fs moved_files r) as Hskip.
  assert (∀ h, is_Some (moved_files !! h) →
               is_Some (loop_map (relocate fs moved_files r) !! h)) as Hkeep.
  { intros h [d Hd]. exists d. by apply relocate_keeps. }
  destruct (relocate fs moved_files r) as [[[evs fs1] moved1] o] eqn:Hstep.
  unfold loop_events, loop_map in *; simpl in *.
  assert (x ∈ evs → x.2 = LogSkippedDuplicate) as Hhere.
  { intros Hin. rewrite <- (Hsame x Hin) in Hskip.
    injection (Hskip Hrec) as -> _ _ _.
    by apply list_elem_of_singleton in Hin as ->. }
  destruct o as [|e]; [| by apply Hhere].
  specialize (IH fs1 moved1).
  destruct (loop fs1 moved1 rest) as [[[evs' fs2] moved2] o'].
  simpl in *. apply elem_of_app in Hx as [Hx | Hx]; [by apply Hhere |].
  apply IH; [done | by apply Hkeep].
Qed.

(** After the successful move of a file, the event of every file with
    the same hash is the skip. *)
Lemma reorder_loop_after_move file_records fs (moved_files : gmap string string)
    (i j : nat) ri rj d e :
  (i < j)%nat →
  loop_events (loop fs moved_files file_records) !! i = Some (ri, LogMoved d) →
  loop_events (loop fs moved_files file_records) !! j = Some (rj, e) →
  file_hash ri = file_hash rj →
  e = LogSkippedDuplicate.
Proof.
  revert fs moved_files i j.
  induction file_records as [|r rest IH]; intros fs moved_files i j Hij Hi Hj Heq.
  { inversion Hi. }
  rewrite reorder_loop_cons in Hi, Hj.
  destruct (relocate_events fs moved_files r) as (Hsame & _ & Hmoved & _).
  destruct (relocate fs moved_files r) as [[[evs fs1] moved1] o] eqn:Hstep.
  unfold loop_events, loop_map in *; simpl in *.
  destruct o as [|ex].
  2: { simpl in *. destruct (Hmoved i ri d Hi) as (_ & _ & Hlen).
       apply lookup_lt_Some in Hj. lia. }
  pose proof (reorder_loop_recorded rest fs1 moved1 (rj, e)) as Hrec.
  specialize (IH fs1 moved1).
  destruct (loop fs1 moved1 rest) as [[[evs' fs2] moved2] o'].
  unfold loop_events in *; simpl in *.
  apply lookup_app_Some in Hi as [Hi | [Hlen Hi]].
  - destruct (Hmoved i ri d Hi) as (_ & -> & Hlen).
    assert (ri = r) as -> by (apply (Hsame (ri, LogMoved d)), list_elem_of_lookup; eauto).
    apply lookup_app_Some in Hj as [Hj | [_ Hj]].
    { apply lookup_lt_Some in Hj. lia. }
    apply Hrec; [apply list_elem_of_lookup; eauto |].
    simpl. rewrite <- Heq, lookup_insert_eq. eauto.
  - apply lookup_app_Some in Hj as [Hj | [_ Hj]].
    { apply lookup_lt_Some in Hj. lia. }
    apply (IH (i - length evs)%nat (j - length evs)%nat); [lia | done..].
Qed.

Lemma is_move_of_true h (x : record * event) :
  is_move_of h x = true → ∃ d, x = (x.1, LogMoved d) ∧ file_hash x.1 = h.
Proof.
  destruct x as [r e]. unfold is_move_of. simpl.
  destruct e; try done. intros Hh%bool_decide_eq_true. eauto.
Qed.

Lemma moves_of_at_most_one h (t : trace) :
  (∀ i j x y, (i < j)%nat → t !! i = Some x → t !! j = Some y →
              is_move_of h x = true → is_move_of h y = true → False) →
  (moves_of h t ≤ 1)%nat.
Proof.
  unfold moves_of. induction t as [|a t IH]; intros Hpair; simpl; [lia |].
  destruct (is_move_of h a) eqn:Ha.
  - destruct (List.filter (is_move_of h) t) as [|y rest] eqn:Hfilter;
      simpl; [lia |].
    exfalso.
    assert (In y (List.filter (is_move_of h) t)) as Hy by (rewrite Hfilter; by left).
    apply filter_In in Hy as [Hy Hmove].
    apply list_elem_of_In, list_elem_of_lookup in Hy as [k Hk].
    apply (Hpair 0%nat (S k) a y); [lia | done..].
  - apply IH. intros i j x y Hij Hi Hj.
    apply (Hpair (S i) (S j) x y); [lia | done..].
Qed.

(** C2.  In one run of the script, started with the empty dictionary
    [moved_files] on any catalog and any file system: for every content
    hash at most one file is moved successfully; after the successful
    move of a file, the only event of every later row with the same
    hash is the skip record; and an iteration for a recorded hash does
    nothing but log the skip, without a call of [os.makedirs] or
    [shutil.move], the file system and the dictionary staying as they
    were.  A recorded hash stays recorded until the end of the run. *)
Theorem C2_at_most_one_move_per_hash (fs : FS) (cat : list Catalog.row) :
  let run := reorder fs cat in
  (∀ h, (moves_of h (loop_events run) ≤ 1)%nat)
  ∧ (∀ (i j : nat) ri rj d e,
       (i < j)%nat →
       loop_events run !! i = Some (ri, LogMoved d) →
       loop_events run !! j = Some (rj, e) →
       file_hash ri = file_hash rj →
       e = LogSkippedDuplicate)
  ∧ (∀ (fs' : FS) (moved_files : gmap string string) r,
       is_Some (moved_files !! file_hash r) →
       relocate fs' moved_files r
       = ([(r, LogSkippedDuplicate)], fs', moved_files, Completed))
  ∧ (∀ (fs' : FS) (moved_files : gmap string string) rest h,
       is_Some (moved_files !! h) →
       is_Some (loop_map (loop fs' moved_files rest) !! h)).
Proof.
  intros run. unfold run, reorder. split_and!.
  - intros h. apply moves_of_at_most_one.
    intros i j x y Hij Hi Hj (d & Hx & Hhx)%is_move_of_true
           (d' & Hy & Hhy)%is_move_of_true.
    rewrite Hx in Hi. rewrite Hy in Hj.
    assert (LogMoved d' = LogSkippedDuplicate) as Habs; [| done].
    eapply reorder_loop_after_move; [exact Hij | exact Hi | exact Hj |].
    by rewrite Hhx, Hhy.
  - intros i j ri rj d e. apply reorder_loop_after_move.
  - intros fs' moved_files r. apply relocate_recorded.
  - intros fs' moved_files rest h [d Hd]. exists d. by apply reorder_loop_keeps.
Qed.

(** C8.  When [shutil.move] raises for a row, the [except] branch logs
    the error and the loop goes on with the remaining rows from the file
    system the failed call left: the iteration completes, the run is not
    ended by it, and [moved_files] is left as it was, so the hash of the
    row is still not recorded. *)
Theorem C8_move_failure_is_skipped (fs fs1 fs2 : FS)
    (moved_files : gmap string string) r rest base_dir :
  moved_files !! file_hash r = None →
  base_dir_of (file_path r) = Some base_dir →
  os_makedirs fs (destination_dir_of base_dir r) = (fs1, true) →
  shutil_move fs1 (file_path r) (destination_path_of base_dir r) = (fs2, false) →
  let evs := [(r, CallMakedirs (destination_dir_of base_dir r));
              (r, CallMove (destination_path_of base_dir r));
              (r, LogMoveError)] in
  relocate fs moved_files r = (evs, fs2, moved_files, Completed)
  ∧ loop fs moved_files (r :: rest)
    = (evs ++ loop_events (loop fs2 moved_files rest),
       loop_state (loop fs2 moved_files rest),
       loop_map (loop fs2 moved_files rest),
       loop_outcome (loop fs2 moved_files rest))
  ∧ loop_map (relocate fs moved_files r) !! file_hash r = None.
Proof.
  intros Hnew Hbase Hdir Hmove evs.
  assert (relocate fs moved_files r = (evs, fs2, moved_files, Completed)) as Hstep.
  { unfold relocate. by rewrite Hnew, Hbase, Hdir, Hmove. }
  split_and!; [done | | by rewrite Hstep].
  rewrite reorder_loop_cons, Hstep.
  by destruct (loop fs2 moved_files rest) as [[[evs' fs3] moved3] o].
Qed.

Lemma reorder_loop_recorded_by_move file_records fs
    (moved_files : gmap string string) h d :
  loop_map (loop fs moved_files file_records) !! h = Some d →
  moved_files !! h = Some d
  ∨ ∃ r, file_hash r = h
         ∧ (r, LogMoved d) ∈ loop_events (loop fs moved_files file_records).
Proof.
  revert fs moved_files.
  induction file_records as [|r rest IH]; intros fs moved_files; [by left |].
  rewrite reorder_loop_cons.
  destruct (relocate_events fs moved_files r) as (_ & _ & Hmoved & Hnot).
  pose proof (relocate_keeps fs moved_files r) as Hkeep.
  destruct (relocate fs moved_files r) as [[[evs fs1] moved1] o] eqn:Hstep.
  unfold loop_events, loop_map in *; simpl in *.
  assert (∀ d, moved1 !! h = Some d →
            moved_files !! h = Some d
            ∨ file_hash r = h ∧ (r, LogMoved d) ∈ evs) as Hhere.
  { intros d1 Hd1.
    destruct (existsb (λ x, match x.2 with LogMoved _ => true | _ => false end) evs)
      eqn:Hex.
    - apply existsb_exists in Hex as ([x e] & Hin%list_elem_of_In & He).
      destruct e as [| | | |d'|]; try done.
      pose proof Hin as Hin'.
      apply list_elem_of_lookup in Hin as [i Hi].
      destruct (relocate_events fs moved_files r) as (Hsame & _).
      rewrite Hstep in Hsame. pose proof (Hsame _ Hin') as Hx. simpl in Hx.
      subst x.
      destruct (Hmoved i r d' Hi) as (_ & -> & _).
      destruct (decide (file_hash r = h)) as [Hh | Hh].
      + rewrite Hh, lookup_insert_eq in Hd1. injection Hd1 as <-. by right.
      + rewrite lookup_insert_ne in Hd1 by done. by left.
    - left. rewrite Hnot in Hd1; [done |].
      intros x d' Hin%list_elem_of_In.
      assert (existsb (λ x, match x.2 with LogMoved _ => true | _ => false end) evs
              = true) as Habs; [| congruence].
      apply existsb_exists. by exists (x, LogMoved d'). }
  destruct o as [|e].
  2: { intros Hd. destruct (Hhere d Hd) as [? | [? ?]]; [by left | right; eauto]. }
  specialize (IH fs1 moved1).
  destruct (loop fs1 moved1 rest) as [[[evs' fs2] moved2] o'].
  simpl in *. intros Hd. destruct (IH Hd) as [Hd1 | (r' & Hr' & Hin)].
  - destruct (Hhere d Hd1) as [? | [? ?]]; [by left |].
    right. exists r. split; [done |]. apply elem_of_app. by left.
  - right. exists r'. split; [done |]. apply elem_of_app. by right.
Qed.

(** C10.  A hash enters [moved_files] only through the assignment that
    follows a successful move.  An iteration that ends in the warning
    for an unknown file type, or in the error record of a failed move,
    leaves the dictionary as it was; every hash the dictionary holds at
    the end of a run was in it at the start or belongs to a row with a
    [Moved] record; and after an iteration without a [Moved] record for
    a hash that was not recorded, the next row with that hash does not
    take the skip branch. *)
Theorem C10_hash_recorded_only_after_move (fs : FS)
    (moved_files : gmap string string) (file_records : list record) :
  (∀ r, moved_files !! file_hash r = None →
        base_dir_of (file_path r) = None →
        relocate fs moved_files r
        = ([(r, LogUnknownType)], fs, moved_files, Completed))
  ∧ (∀ r, (∀ x d, (x, LogMoved d) ∉ loop_events (relocate fs moved_files r)) →
          loop_map (relocate fs moved_files r) = moved_files)
  ∧ (∀ h d, loop_map (loop fs moved_files file_records) !! h = Some d →
            moved_files !! h = Some d
            ∨ ∃ r, file_hash r = h
                   ∧ (r, LogMoved d)
                       ∈ loop_events (loop fs moved_files file_records))
  ∧ (∀ r r', moved_files !! file_hash r = None →
             file_hash r' = file_hash r →
             (∀ x d, (x, LogMoved d) ∉ loop_events (relocate fs moved_files r)) →
             let step := relocate fs moved_files r in
             (r', LogSkippedDuplicate)
               ∉ loop_events (relocate (loop_state step) (loop_map step) r')).
Proof.
  split_and!.
  - intros r Hnew Hbase. unfold relocate. by rewrite Hnew, Hbase.
  - intros r. by destruct (relocate_events fs moved_files r) as (_ & _ & _ & Hnot).
  - intros h d. apply reorder_loop_recorded_by_move.
  - intros r r' Hnew Hsame Hnomove step Hskip.
    destruct (relocate_events fs moved_files r) as (_ & _ & _ & Hnot).
    fold step in Hnot, Hnomove. specialize (Hnot Hnomove).
    destruct (relocate_events (loop_state step) (loop_map step) r')
      as (_ & Hfresh & _).
    rewrite Hnot in Hfresh, Hskip. rewrite Hsame in Hfresh.
    by apply (Hfresh Hnew _ Hskip).
Qed.

End Reorganize.

(** ** The stored capture date *)

Section DateTaken.

Import GetMediaInfo.
Context `{Platform}.
Variable w : World.

Lemma is_digit_digit (n : Z) : Iso.is_digit (Py.digit n) = true.
Proof.
  unfold Py.digit.
  pose proof (Z.mod_pos_bound n 10 ltac:(lia)) as Hbound.
  assert (Z.to_nat (n mod 10) < 10)%nat as Hlt by lia.
  destruct (Z.to_nat (n mod 10)) as [|[|[|[|[|[|[|[|[|[|k]]]]]]]]]];
    (reflexivity || lia).
Qed.

Lemma isoformat_is_iso8601 (d : Py.datetime) :
  Iso.is_iso8601 (Py.isoformat d) = true.
Proof.
  unfold Iso.is_iso8601, Py.isoformat, Py.date_part, Py.time_part,
    Py.pad6, Py.pad4, Py.pad2.
  destruct (Py.microsecond d =? 0);
    cbv -[Py.digit Iso.is_digit Z.div]; rewrite !is_digit_digit; reflexivity.
Qed.

Lemma strftime_is_iso8601 (d : Py.datetime) :
  Iso.is_iso8601 (Py.strftime_Ymd_HMS d) = true.
Proof.
  unfold Iso.is_iso8601, Py.strftime_Ymd_HMS, Py.date_part, Py.time_part,
    Py.pad4, Py.pad2.
  cbv -[Py.digit Iso.is_digit Z.div]; rewrite !is_digit_digit; reflexivity.
Qed.

(** Without an embedded date, [date_taken] is the creation time in
    ISO-8601: the fallback part of the claim on the stored date. *)
Lemma get_file_info_fallback now filepath evs size taken saved :
  get_file_info w now filepath = (evs, Ok (size, taken, saved)) →
  not_ (embedded_date w filepath).2 = true →
  ∃ d, os_path_getctime w filepath = Some d
       ∧ taken = Py.isoformat d
       ∧ Iso.is_iso8601 taken = true.
Proof.
  unfold get_file_info, creation_date.
  destruct (os_path_getsize w filepath) as [sz|]; [| done].
  destruct (embedded_date w filepath) as [evs0 date]. simpl.
  intros Hinfo Hnot. rewrite Hnot in Hinfo.
  destruct (os_path_getctime w filepath) as [d|]; [| done].
  injection Hinfo as _ _ <- _. exists d.
  split_and!; [done | done | apply isoformat_is_iso8601].
Qed.

(** The three ways of having no embedded date. *)
Lemma embedded_date_unsupported filepath :
  let ext := Py.lower (Path_suffix filepath) in
  ext_in ext IMAGE_EXTENSIONS = false →
  ext_in ext VIDEO_EXTENSIONS = false →
  embedded_date w filepath = ([], None).
Proof. intros ext Himg Hvid. unfold embedded_date. fold ext. by rewrite Himg, Hvid. Qed.

Lemma embedded_date_parse_failure filepath :
  Image_getexif w filepath = ExifRaises →
  hachoir_metadata w filepath = VideoRaises →
  (embedded_date w filepath).2 = None.
Proof.
  intros Himg Hvid. unfold embedded_date. rewrite Himg, Hvid.
  by repeat case_match.
Qed.

Lemma embedded_date_missing_tag filepath :
  Image_getexif w filepath = ExifData None →
  hachoir_metadata w filepath = VideoMetadata None →
  (embedded_date w filepath).2 = None.
Proof.
  intros Himg Hvid. unfold embedded_date. rewrite Himg, Hvid.
  by repeat case_match.
Qed.

(** For a picture with a non-empty [DateTimeOriginal], [date_taken] is
    the value of the tag as it stands in the file. *)
Lemma get_file_info_exif_verbatim now filepath items value size :
  ext_in (Py.lower (Path_suffix filepath)) IMAGE_EXTENSIONS = true →
  Image_getexif w filepath = ExifData (Some items) →
  exif_date_taken items = Some value →
  value ≠ "" →
  os_path_getsize w filepath = Some size →
  get_file_info w now filepath
  = ([], Ok (size, value, Py.isoformat (datetime_now w now))).
Proof.
  intros Himg Hexif Htag Hvalue Hsize.
  unfold get_file_info, embedded_date.
  rewrite Hsize, Himg, Hexif, Htag. simpl.
  by apply String.eqb_neq in Hvalue as ->.
Qed.

End DateTaken.

(** ** The scripts on the sample root *)

Import Host.

(** C7.  A picture whose EXIF data carry [DateTimeOriginal] in the EXIF
    form [YYYY:MM:DD HH:MM:SS] is cataloged with exactly that text as
    [date_taken], which is not an ISO-8601 string; the picture next to it
    without the tag gets the creation time in ISO-8601. *)
Theorem C7_exif_date_is_stored_verbatim :
  GetMediaInfo.get_file_info Host.root 0 "/r/a.jpg"
  = ([], Ok (2048, "2020:06:01 12:00:00", "2024-05-01T12:00:00"))
  ∧ Iso.is_iso8601 "2020:06:01 12:00:00" = false
  ∧ (Catalog.date_taken
       <$> catalog (scan_state
                      (GetMediaInfo.find_duplicates_and_store Host.root Host.empty
                         ["/r/a.jpg"; "/r/b.jpg"])))
    = ["2020:06:01 12:00:00"; "2021-01-02T12:00:00"].
Proof. split_and!; vm_compute; reflexivity. Qed.

(** The first scanner, run on [a.jpg] and then on [b.jpg], leaves two
    unflagged rows with one hash. *)
Lemma first_scanner_leaves_two_unflagged :
  scan_state
    (FindMediaFiles.find_duplicates_and_store root
       (scan_state (FindMediaFiles.find_duplicates_and_store root empty ["/r/a.jpg"]))
       ["/r/b.jpg"])
  = two_unflagged.
Proof. vm_compute. reflexivity. Qed.

(** The first scanner has no path check: a second run over the same file
    inserts a second row for the path. *)
Lemma first_scanner_rescan_inserts :
  paths (scan_state
           (FindMediaFiles.find_duplicates_and_store root
              (scan_state
                 (FindMediaFiles.find_duplicates_and_store root empty ["/r/a.jpg"]))
              ["/r/a.jpg"]))
  = ["/r/a.jpg"; "/r/a.jpg"].
Proof. vm_compute. reflexivity. Qed.

(** C3 as stated fails for [find_duplicates_and_store] of
    [findmediafiles.py]: run a second time over the same unchanged file,
    it inserts a second row for the path, so that the second run adds a
    row and the paths of the catalog are no longer distinct. *)
Lemma C3_counterexample_first_scanner_inserts_again :
  let st1 :=
    scan_state (FindMediaFiles.find_duplicates_and_store root empty ["/r/a.jpg"]) in
  let st2 :=
    scan_state (FindMediaFiles.find_duplicates_and_store root st1 ["/r/a.jpg"]) in
  paths st1 = ["/r/a.jpg"]
  ∧ paths st2 = ["/r/a.jpg"; "/r/a.jpg"]
  ∧ length (catalog st2) = S (length (catalog st1))
  ∧ ¬ NoDup (paths st2).
Proof.
  intros st1 st2.
  assert (paths st2 = ["/r/a.jpg"; "/r/a.jpg"]) as Hpaths.
  { vm_compute. reflexivity. }
  split_and!; [by vm_compute | exact Hpaths | by vm_compute |].
  rewrite Hpaths. intros [Hnew _]%NoDup_cons. apply Hnew. left.
Qed.

(** C1 as stated fails: started on a catalog with two unflagged rows of
    one hash, the scanner of [getmediainfo.py] leaves both unflagged, so
    that the later one contradicts the claim. *)
Lemma C1_counterexample_start_not_repaired :
  ¬ Catalog.first_wins
      (catalog (scan_state
                  (GetMediaInfo.find_duplicates_and_store root two_unflagged
                     ["/r/c.png"]))).
Proof.
  intros Hinv.
  specialize (Hinv 0%nat 1%nat (a_row 0) (b_row 0)).
  vm_compute in Hinv.
  by specialize (Hinv ltac:(lia) eq_refl eq_refl eq_refl).
Qed.

Lemma C1_first_seen_wins_preserved_witness :
Catalog.first_wins (catalog one_picture)
∧ Catalog.first_wins
    (catalog (scan_state
                (GetMediaInfo.find_duplicates_and_store root one_picture
                   ["/r/b.jpg"; "/r/c.png"])))
∧ Catalog.unflagged_is_earliest
    (catalog (scan_state
                (GetMediaInfo.main root one_picture
                   ["/r/b.jpg"; "/r/c.png"] ["/r/v.mp4"]))).
Proof.
assert (Catalog.first_wins (catalog one_picture)) as Hstart.
{ apply first_wins_checked. reflexivity. }
destruct (C1_first_seen_wins_preserved root one_picture ["/r/b.jpg"; "/r/c.png"]
            ["/r/b.jpg"; "/r/c.png"] ["/r/v.mp4"] Hstart)
  as [[Hscan _] [_ Hmain]].
split_and!; [exact Hstart | exact Hscan | exact Hmain].
Defined.

Lemma C3_rescan_adds_no_row_witness :
  NoDup (paths one_picture)
  ∧ catalog (scan_state
               (GetMediaInfo.find_duplicates_and_store root
                  (scan_state
                     (GetMediaInfo.find_duplicates_and_store root one_picture
                        ["/r/a.jpg"; "/r/b.jpg"]))
                  ["/r/a.jpg"; "/r/b.jpg"]))
    = catalog (scan_state
                 (GetMediaInfo.find_duplicates_and_store root one_picture
                    ["/r/a.jpg"; "/r/b.jpg"]))
  ∧ NoDup (paths (scan_state
                    (GetMediaInfo.find_duplicates_and_store root one_picture
                       ["/r/a.jpg"; "/r/b.jpg"]))).
Proof.
  assert (NoDup (paths one_picture)) as Hnd.
  { apply (bool_decide_unpack _). reflexivity. }
  destruct (C3_rescan_adds_no_row root one_picture ["/r/a.jpg"; "/r/b.jpg"]
              ["/r/a.jpg"; "/r/b.jpg"] ["/r/v.mp4"]) as (Hsame & _ & _ & Hdistinct).
  split_and!; [exact Hnd | exact Hsame | exact (proj1 (Hdistinct Hnd))].
Defined.

Lemma C4_flag_of_inserted_row_witness :
  let step := GetMediaInfo.process_file root one_picture ∅ "/r/b.jpg" in
  step = (loop_events step, loop_state step, ∅, Completed)
  ∧ catalog (loop_state step) = catalog one_picture ++ [b_row 1]
  ∧ Catalog.duplicateFlag (b_row 1) = true
  ∧ is_Some (Catalog.select_hash (catalog one_picture) "da39a3ee").
Proof.
  intros step.
  assert (step = (loop_events step, loop_state step, ∅, Completed)) as Hstep.
  { vm_compute. reflexivity. }
  assert (catalog (loop_state step) = catalog one_picture ++ [b_row 1]) as Hcat.
  { vm_compute. reflexivity. }
  destruct (C4_flag_of_inserted_row root one_picture ∅ "/r/b.jpg"
              (loop_events step) (loop_state step) ∅ (b_row 1) Hstep Hcat)
    as (_ & _ & Hflag & _).
  split_and!; [exact Hstep | exact Hcat | reflexivity |].
  destruct (proj1 Hflag eq_refl) as [Hdb | Hseen]; [exact Hdb |].
  exfalso. destruct Hseen as [x Hx]. by rewrite lookup_empty in Hx.
Defined.

Lemma C9_seen_set_is_redundant_witness :
  GetMediaInfo.find_duplicates_and_store root empty
    ["/r/a.jpg"; "/r/b.jpg"; "/r/c.png"]
  = GetMediaInfo.find_duplicates_and_store_catalog_only root empty
      ["/r/a.jpg"; "/r/b.jpg"; "/r/c.png"].
Proof.
  exact (proj1 (C9_seen_set_is_redundant root empty
                  ["/r/a.jpg"; "/r/b.jpg"; "/r/c.png"])).
Defined.

(** C5 as stated fails: the picture that cannot be opened ends the run
    before [c.png] is looked at, while [c.png] alone is cataloged. *)
Lemma C5_counterexample_unreadable_file_aborts :
  hash_file root "/r/locked.jpg" = Err (IOError "/r/locked.jpg")
  ∧ GetMediaInfo.find_duplicates_and_store root empty
      ["/r/locked.jpg"; "/r/c.png"]
    = ([CallHashFile "/r/locked.jpg"], empty, Raised (IOError "/r/locked.jpg"))
  ∧ paths (scan_state
             (GetMediaInfo.find_duplicates_and_store root empty ["/r/c.png"]))
    = ["/r/c.png"].
Proof. split_and!; vm_compute; reflexivity. Qed.

Lemma C5_unreadable_file_ends_run_witness :
  let pre := GetMediaInfo.loop root empty ∅ ["/r/a.jpg"] in
  hash_file root "/r/locked.jpg" = Err (IOError "/r/locked.jpg")
  ∧ pre = (loop_events pre, loop_state pre, loop_map pre, Completed)
  ∧ GetMediaInfo.find_duplicates_and_store root empty
      (["/r/a.jpg"] ++ "/r/locked.jpg" :: ["/r/c.png"])
    = (loop_events pre ++ [CallHashFile "/r/locked.jpg"], loop_state pre,
       Raised (IOError "/r/locked.jpg")).
Proof.
  intros pre.
  assert (hash_file root "/r/locked.jpg" = Err (IOError "/r/locked.jpg")) as Hhash.
  { reflexivity. }
  assert (pre = (loop_events pre, loop_state pre, loop_map pre, Completed)) as Hpre.
  { vm_compute. reflexivity. }
  split_and!; [exact Hhash | exact Hpre |].
  exact (C5_unreadable_file_ends_run root empty ["/r/a.jpg"] "/r/locked.jpg"
           ["/r/c.png"] _ _ _ _ Hhash Hpre).
Defined.

(** C6 as stated fails: for [a.jpg], which the catalog holds, the hash is
    computed and the file information read before the path query, and the
    skip record carries the hash; for the cataloged picture that cannot be
    opened the run ends instead of skipping. *)
Lemma C6_counterexample_hash_before_path_check :
  let st := {| catalog := [a_row 0; locked_row]; clock := 2 |} in
  paths st = ["/r/a.jpg"; "/r/locked.jpg"]
  ∧ loop_events (GetMediaInfo.process_file root st ∅ "/r/a.jpg")
    = [CallHashFile "/r/a.jpg"; CallGetFileInfo "/r/a.jpg";
       SelectCountPath "/r/a.jpg"; LogSkippedSamePath "/r/a.jpg" "da39a3ee"]
  ∧ GetMediaInfo.process_file root st ∅ "/r/locked.jpg"
    = ([CallHashFile "/r/locked.jpg"], st, ∅, Raised (IOError "/r/locked.jpg")).
Proof. split_and!; vm_compute; reflexivity. Qed.

Lemma C6_cataloged_path_is_hashed_then_skipped_witness :
  "/r/a.jpg" ∈ paths one_picture
  ∧ GetMediaInfo.process_file root one_picture ∅ "/r/a.jpg"
    = ([CallHashFile "/r/a.jpg"; CallGetFileInfo "/r/a.jpg";
        SelectCountPath "/r/a.jpg"; LogSkippedSamePath "/r/a.jpg" "da39a3ee"],
       {| catalog := catalog one_picture; clock := 2 |}, ∅, Completed).
Proof.
  assert ("/r/a.jpg" ∈ paths one_picture) as Hin.
  { apply (bool_decide_unpack _). reflexivity. }
  split; [exact Hin |].
  rewrite (C6_cataloged_path_is_hashed_then_skipped root one_picture ∅ "/r/a.jpg" Hin).
  reflexivity.
Defined.

Lemma C2_at_most_one_move_per_hash_witness :
  let fs : Reorder.FS := ["/r/a.jpg"; "/r/b.jpg"; "/r/notes.txt"] in
  let cat := [a_row 0; b_row 1; notes_row] in
  (Reorder.moves_of "da39a3ee" (loop_events (Reorder.reorder fs cat)) ≤ 1)%nat
  ∧ Reorder.relocate fs {["da39a3ee" := "H:\My Media/photos/2021/a.jpg"]} a_record
    = ([(a_record, Reorder.LogSkippedDuplicate)], fs,
       {["da39a3ee" := "H:\My Media/photos/2021/a.jpg"]}, Completed).
Proof.
  intros fs cat.
  destruct (C2_at_most_one_move_per_hash fs cat) as (Hone & _ & Hskip & _).
  split; [exact (Hone "da39a3ee") |].
  apply Hskip. exists "H:\My Media/photos/2021/a.jpg". reflexivity.
Defined.

Lemma C8_move_failure_is_skipped_witness :
  let fs : Reorder.FS := ["/r/b.jpg"] in
  let evs := [(a_record, Reorder.CallMakedirs "H:\My Media/photos/2020");
              (a_record, Reorder.CallMove "H:\My Media/photos/2020/a.jpg");
              (a_record, Reorder.LogMoveError)] in
  Reorder.shutil_move fs "/r/a.jpg" "H:\My Media/photos/2020/a.jpg" = (fs, false)
  ∧ Reorder.relocate fs ∅ a_record = (evs, fs, ∅, Completed)
  ∧ Reorder.loop fs ∅ [a_record; ("/r/b.jpg", "da39a3ee", "2021-01-02T12:00:00")]
    = (evs ++ [(("/r/b.jpg", "da39a3ee", "2021-01-02T12:00:00"),
                Reorder.CallMakedirs "H:\My Media/photos/2021");
               (("/r/b.jpg", "da39a3ee", "2021-01-02T12:00:00"),
                Reorder.CallMove "H:\My Media/photos/2021/b.jpg");
               (("/r/b.jpg", "da39a3ee", "2021-01-02T12:00:00"),
                Reorder.LogMoved "H:\My Media/photos/2021/b.jpg")],
       ["H:\My Media/photos/2021/b.jpg"],
       {["da39a3ee" := "H:\My Media/photos/2021/b.jpg"]}, Completed).
Proof.
  intros fs evs.
  assert (Reorder.shutil_move fs "/r/a.jpg" "H:\My Media/photos/2020/a.jpg"
          = (fs, false)) as Hmove.
  { vm_compute. reflexivity. }
  destruct (C8_move_failure_is_skipped fs fs fs ∅ a_record
              [("/r/b.jpg", "da39a3ee", "2021-01-02T12:00:00")]
              "H:\My Media/photos")
    as (Hstep & Hloop & _);
    [reflexivity | vm_compute; reflexivity | reflexivity | exact Hmove |].
  split_and!; [exact Hmove | exact Hstep |].
  rewrite Hloop. vm_compute. reflexivity.
Defined.

Lemma C10_hash_recorded_only_after_move_witness :
  let fs : Reorder.FS := ["/r/a.jpg"; "/r/notes.txt"] in
  Reorder.relocate fs ∅ notes_record
  = ([(notes_record, Reorder.LogUnknownType)], fs, ∅, Completed)
  ∧ ((a_record, Reorder.LogSkippedDuplicate)
       ∉ loop_events (Reorder.relocate fs ∅ a_record))
  ∧ (a_record, Reorder.LogMoved "H:\My Media/photos/2020/a.jpg")
      ∈ loop_events (Reorder.loop fs ∅ [notes_record; a_record]).
Proof.
  intros fs.
  destruct (C10_hash_recorded_only_after_move fs ∅ [notes_record; a_record])
    as (Hunknown & _ & Hrecorded & Heligible).
  assert (Reorder.relocate fs ∅ notes_record
          = ([(notes_record, Reorder.LogUnknownType)], fs, ∅, Completed)) as Hstep.
  { apply Hunknown; [reflexivity | vm_compute; reflexivity]. }
  split_and!; [exact Hstep | |].
  - specialize (Heligible notes_record a_record eq_refl eq_refl).
    rewrite Hstep in Heligible. apply Heligible.
    intros x d Hin. apply list_elem_of_singleton in Hin. discriminate Hin.
  - destruct (Hrecorded "da39a3ee" "H:\My Media/photos/2020/a.jpg")
      as [Hstart | (r & Hhash & Hin)].
    + vm_compute. reflexivity.
    + rewrite lookup_empty in Hstart. discriminate Hstart.
    + assert (r = a_record) as ->; [| exact Hin].
      revert Hin. vm_compute. intros Hin.
      repeat (apply elem_of_cons in Hin as [Heq | Hin];
              [injection Heq as -> | ]; try done).
      inversion Hin.
Defined.

(** * Further properties of the scripts *)

(** ** [get_file_info] *)

Section FileInfo.

Import Catalog GetMediaInfo.
Context `{Platform}.
Variable w : World.

Lemma embedded_date_shape filepath evs date :
embedded_date w filepath = (evs, date) →
date = None
∨ (ext_in (Py.lower (Path_suffix filepath)) IMAGE_EXTENSIONS = true
   ∧ ∃ items, Image_getexif w filepath = ExifData (Some items)
              ∧ exif_date_taken items = date)
∨ (∃ d, date = Some (Py.strftime_Ymd_HMS d)).
Proof.
unfold embedded_date.
destruct (ext_in (Py.lower (Path_suffix filepath)) IMAGE_EXTENSIONS) eqn:Himg.
- destruct (Image_getexif w filepath) as [|[items|]] eqn:Hexif;
    intros [= <- <-]; [by left | | by left].
  right. left. eauto.
- destruct (ext_in (Py.lower (Path_suffix filepath)) VIDEO_EXTENSIONS).
  + destruct (hachoir_metadata w filepath) as [| | |[d|]];
      intros [= <- <-]; eauto.
  + intros [= <- <-]. by left.
Qed.

Lemma strftime_not_empty d : Py.strftime_Ymd_HMS d ≠ "".
Proof. unfold Py.strftime_Ymd_HMS, Py.date_part, Py.pad4. done. Qed.

Lemma isoformat_not_empty d : Py.isoformat d ≠ "".
Proof. unfold Py.isoformat, Py.date_part, Py.pad4. done. Qed.

Lemma get_file_info_metadata_never_raises_aux now filepath size d :
os_path_getsize w filepath = Some size →
os_path_getctime w filepath = Some d →
∃ taken,
  (get_file_info w now filepath).2
  = Ok (size, taken, Py.isoformat (datetime_now w now)).
Proof.
intros Hsize Hctime. unfold get_file_info, creation_date.
rewrite Hsize, Hctime.
destruct (embedded_date w filepath) as [evs [taken|]]; simpl; [| eauto].
destruct (String.eqb taken ""); eauto.
Qed.

(** X1.  [get_file_info] raises only when [os.path.getsize] or
    [os.path.getctime] does: whatever the EXIF and video libraries do
    (raise, return nothing, return a date), a file whose size and
    creation time can be read gets its size, a non-empty [date_taken] and
    the time of the call. *)
Theorem get_file_info_metadata_never_raises now filepath size d :
os_path_getsize w filepath = Some size →
os_path_getctime w filepath = Some d →
∃ taken,
  (get_file_info w now filepath).2
  = Ok (size, taken, Py.isoformat (datetime_now w now))
  ∧ taken ≠ "".
Proof.
intros Hsize Hctime. unfold get_file_info, creation_date.
rewrite Hsize, Hctime.
destruct (embedded_date w filepath) as [evs [taken|]]; simpl.
- destruct (String.eqb taken "") eqn:Hempty.
  + eexists. split; [done | apply isoformat_not_empty].
  + exists taken. split; [done | by apply String.eqb_neq].
- eexists. split; [done | apply isoformat_not_empty].
Qed.

(** X2.  When [get_file_info] raises, the exception is the [OSError] of
    the file, and the size or the creation time of the file could not be
    read. *)
Theorem get_file_info_raises_only_oserror now filepath evs e :
get_file_info w now filepath = (evs, Err e) →
e = OSError filepath
∧ (os_path_getsize w filepath = None ∨ os_path_getctime w filepath = None).
Proof.
unfold get_file_info, creation_date.
destruct (os_path_getsize w filepath) as [size|].
2: { intros [= <- <-]. eauto. }
destruct (embedded_date w filepath) as [evs0 date].
destruct (not_ date); [| done].
destruct (os_path_getctime w filepath) as [d|]; [done |].
intros [= <- <-]. eauto.
Qed.

(** X3.  The two dates [get_file_info] returns: [date_saved] is always an
    ISO-8601 string, and [date_taken] is one too unless the file is a
    picture and [date_taken] is the non-empty value of its
    [DateTimeOriginal] tag. *)
Theorem get_file_info_dates now filepath evs size taken saved :
get_file_info w now filepath = (evs, Ok (size, taken, saved)) →
Iso.is_iso8601 saved = true
∧ (Iso.is_iso8601 taken = true
   ∨ (ext_in (Py.lower (Path_suffix filepath)) IMAGE_EXTENSIONS = true
      ∧ taken ≠ ""
      ∧ ∃ items, Image_getexif w filepath = ExifData (Some items)
                 ∧ exif_date_taken items = Some taken)).
Proof.
unfold get_file_info, creation_date.
destruct (os_path_getsize w filepath) as [sz|]; [| done].
destruct (embedded_date w filepath) as [evs0 date] eqn:Hdate.
apply embedded_date_shape in Hdate.
assert (∀ d, os_path_getctime w filepath = Some d →
             (evs0, Ok (sz, Py.isoformat d, Py.isoformat (datetime_now w now)))
             = (evs, Ok (size, taken, saved)) →
             Iso.is_iso8601 saved = true ∧ Iso.is_iso8601 taken = true) as Hfallback.
{ intros d _ [= _ _ <- <-]. split; apply isoformat_is_iso8601. }
destruct date as [value|]; simpl.
- destruct (String.eqb value "") eqn:Hempty.
  + destruct (os_path_getctime w filepath) as [d|]; [| done].
    intros Heq. destruct (Hfallback d eq_refl Heq). eauto.
  + intros [= _ _ <- <-]. split; [apply isoformat_is_iso8601 |].
    destruct Hdate as [Hnone | [(Himg & items & Hexif & Htag) | [d Hd]]].
    * done.
    * right. split_and!; [done | by apply String.eqb_neq | eauto].
    * left. injection Hd as ->. apply strftime_is_iso8601.
- destruct (os_path_getctime w filepath) as [d|]; [| done].
  intros Heq. destruct (Hfallback d eq_refl Heq). eauto.
Qed.

End FileInfo.

(** ** The scan of [getmediainfo.py] as a whole *)

Section ScanRun.

Import Catalog GetMediaInfo.
Context `{Platform}.
Variable w : World.

Lemma step_prefix st hashes file st' hashes' o :
step_kind w st hashes file st' hashes' o →
catalog st `prefix_of` catalog st'.
Proof.
intros [e -> _ | _ -> _ | r _ -> _ _ _]; [done | done |].
by apply prefix_app_r.
Qed.

Lemma loop_prefix files st hashes :
catalog st `prefix_of` catalog (loop_state (loop w st hashes files)).
Proof.
apply (loop_preserves w (λ s, catalog st `prefix_of` catalog s)); [| done].
intros s hs file s' hs' o Hstep Hpre.
etrans; [exact Hpre | by eapply step_prefix].
Qed.

(** X4.  The scan is append-only: the catalog it starts from is a prefix
    of the catalog it leaves, for one call of
    [find_duplicates_and_store] and for the two calls of the script, so
    that no row is ever removed, changed or moved to another position. *)
Theorem scan_appends_only st files images videos :
catalog st `prefix_of`
  catalog (scan_state (find_duplicates_and_store w st files))
∧ catalog st `prefix_of`
    catalog (scan_state (main w st images videos)).
Proof.
assert (∀ st files,
          catalog st `prefix_of`
            catalog (scan_state (find_duplicates_and_store w st files))) as Hscan.
{ intros st0 files0. rewrite find_duplicates_and_store_loop. apply loop_prefix. }
split; [apply Hscan |].
rewrite main_state.
destruct (scan_outcome (find_duplicates_and_store w st images)); [| apply Hscan].
etrans; [apply (Hscan st images) | apply Hscan].
Qed.

Lemma loop_completed_covers files st hashes :
loop_outcome (loop w st hashes files) = Completed →
∀ file, file ∈ files → file ∈ paths (loop_state (loop w st hashes files)).
Proof.
revert st hashes.
induction files as [|f rest IH]; intros st hashes Hdone file Hin.
{ inversion Hin. }
rewrite loop_outcome_cons in Hdone. rewrite loop_state_cons.
destruct (process_file w st hashes f) as [[[evs st1] hashes1] o] eqn:Hbody.
apply process_file_kind in Hbody.
destruct o as [|e]; [| done].
apply elem_of_cons in Hin as [-> | Hin].
- apply loop_paths_mono. by eapply step_completed_path.
- by apply IH.
Qed.

Lemma scan_completed_covers st files :
scan_outcome (find_duplicates_and_store w st files) = Completed →
∀ file, file ∈ files →
  file ∈ paths (scan_state (find_duplicates_and_store w st files)).
Proof.
rewrite scan_outcome_loop, find_duplicates_and_store_loop.
apply loop_completed_covers.
Qed.

Lemma main_outcome st images videos :
scan_outcome (main w st images videos)
= match scan_outcome (find_duplicates_and_store w st images) with
  | Completed =>
      scan_outcome
        (find_duplicates_and_store w
           (scan_state (find_duplicates_and_store w st images)) videos)
  | Raised e => Raised e
  end.
Proof.
unfold main.
destruct (find_duplicates_and_store w st images) as [[evs st1] [|e]]; [| done].
unfold scan_outcome, scan_state. simpl.
by destruct (find_duplicates_and_store w st1 videos) as [[evs' st2] o].
Qed.

Lemma main_completed_covers st images videos :
scan_outcome (main w st images videos) = Completed →
∀ file, file ∈ images ++ videos →
  file ∈ paths (scan_state (main w st images videos)).
Proof.
rewrite main_outcome, main_state.
destruct (scan_outcome (find_duplicates_and_store w st images)) eqn:Himages;
  [| done].
intros Hvideos file [Hin | Hin]%elem_of_app.
- apply scan_paths_mono. by apply scan_completed_covers.
- by apply scan_completed_covers.
Qed.

(** X5.  A scan that is not ended by an exception leaves every file it
    was given in the catalog: after [find_duplicates_and_store] every
    path of the list, after the script every image and every video, has a
    row. *)
Theorem completed_scan_catalogs_every_file st files images videos :
(scan_outcome (find_duplicates_and_store w st files) = Completed →
 ∀ file, file ∈ files →
   file ∈ paths (scan_state (find_duplicates_and_store w st files)))
∧ (scan_outcome (main w st images videos) = Completed →
   ∀ file, file ∈ images ++ videos →
     file ∈ paths (scan_state (main w st images videos))).
Proof. split; [apply scan_completed_covers | apply main_completed_covers]. Qed.

(** In the embedding, where no catalog operation fails, an iteration for a
    readable file completes. *)
Lemma can_read_process_file st hashes file :
can_read w file = true →
loop_outcome (process_file w st hashes file) = Completed.
Proof.
unfold can_read, process_file, hash_file.
destruct (sha1_hexdigest w file) as [digest|]; [| done].
destruct (os_path_getsize w file) as [size|] eqn:Hsize; [| done].
destruct (os_path_getctime w file) as [d|] eqn:Hctime; [| done].
intros _.
destruct (get_file_info_metadata_never_raises_aux w (clock st) file size d Hsize Hctime)
  as (taken & Hinfo).
destruct (get_file_info w (clock st) file) as [evs info].
simpl in Hinfo. subst info. simpl. by repeat case_match.
Qed.

Lemma can_read_loop files st hashes :
forallb (can_read w) files = true →
loop_outcome (loop w st hashes files) = Completed.
Proof.
revert st hashes. induction files as [|f rest IH]; intros st hashes Hall; [done |].
simpl in Hall. apply andb_prop in Hall as [Hf Hrest].
rewrite loop_outcome_cons.
pose proof (can_read_process_file st hashes f Hf) as Hdone.
destruct (process_file w st hashes f) as [[[evs st1] hashes1] o].
unfold loop_outcome in Hdone. simpl in Hdone. subst o. by apply IH.
Qed.

(** X6.  When every file of the lists can be opened and has a size and a
    creation time, the scan is not ended by an exception of [hash_file]
    or of [get_file_info], whatever the metadata libraries do with the
    files: the outcome is neither the [IOError] nor the [OSError] of any
    file.  (What is left to end such a scan is an error of the catalog
    itself, which this embedding does not have.) *)
Theorem readable_files_raise_no_file_error st images videos filepath :
forallb (can_read w) (images ++ videos) = true →
scan_outcome (main w st images videos) ≠ Raised (IOError filepath)
∧ scan_outcome (main w st images videos) ≠ Raised (OSError filepath).
Proof.
intros Hall.
assert (scan_outcome (main w st images videos) = Completed) as Hdone.
{ rewrite forallb_app in Hall. apply andb_prop in Hall as [Himages Hvideos].
  rewrite main_outcome, !scan_outcome_loop.
  rewrite (can_read_loop images) by done. by apply can_read_loop. }
rewrite Hdone. by split.
Qed.

Lemma process_file_rows st hashes file evs st' hashes' o :
process_file w st hashes file = (evs, st', hashes', o) →
∀ r, r ∈ catalog st' →
  r ∈ catalog st
  ∨ (path r = file
     ∧ hash_file w file = Ok (hash r)
     ∧ (duplicate r = 0 ∨ duplicate r = 1)
     ∧ (get_file_info w (clock st) file).2
       = Ok (size r, date_taken r, date_saved r)).
Proof.
unfold process_file.
destruct (hash_file w file) as [file_hash|e] eqn:Hhash.
2: { intros [= <- <- <- <-]. by left. }
destruct (get_file_info w (clock st) file) as [evs0 [[[sz taken] saved]|e]].
2: { intros [= <- <- <- <-]. by left. }
simpl.
assert (∀ flag r,
          (flag = 0 ∨ flag = 1) →
          r ∈ insert (catalog st) (Build_row file_hash file sz taken saved flag) →
          r ∈ catalog st
          ∨ (path r = file ∧ Ok file_hash = Ok (hash r)
             ∧ (duplicate r = 0 ∨ duplicate r = 1)
             ∧ Ok (sz, taken, saved) = Ok (size r, date_taken r, date_saved r)))
  as Hnew.
{ intros flag r Hflag [Hold | ->%list_elem_of_singleton]%elem_of_app;
    [by left | by right]. }
destruct (0 <? count_path (catalog st) file)%nat.
{ intros [= <- <- <- <-]. by left. }
destruct (select_hash (catalog st) file_hash).
{ intros [= <- <- <- <-] r. apply Hnew. by right. }
destruct (hashes !! file_hash).
- intros [= <- <- <- <-] r. apply Hnew. by right.
- intros [= <- <- <- <-] r. apply Hnew. by left.
Qed.

Lemma loop_rows files st hashes :
∀ r, r ∈ catalog (loop_state (loop w st hashes files)) →
  r ∈ catalog st
  ∨ (path r ∈ files
     ∧ hash_file w (path r) = Ok (hash r)
     ∧ (duplicate r = 0 ∨ duplicate r = 1)
     ∧ ∃ now, (get_file_info w now (path r)).2
              = Ok (size r, date_taken r, date_saved r)).
Proof.
revert st hashes. induction files as [|f rest IH]; intros st hashes r Hr.
{ by left. }
rewrite loop_state_cons in Hr.
destruct (process_file w st hashes f) as [[[evs st1] hashes1] o] eqn:Hbody.
pose proof (process_file_rows _ _ _ _ _ _ _ Hbody r) as Hstep.
assert (r ∈ catalog st1 →
        r ∈ catalog st
        ∨ (path r ∈ f :: rest
           ∧ hash_file w (path r) = Ok (hash r)
           ∧ (duplicate r = 0 ∨ duplicate r = 1)
           ∧ ∃ now, (get_file_info w now (path r)).2
                    = Ok (size r, date_taken r, date_saved r))) as Hhere.
{ intros Hin. destruct (Hstep Hin) as [Hold | (Hpath & Hhash & Hflag & Hinfo)];
    [by left | right].
  rewrite Hpath. split_and!; [by left | done | done | eauto]. }
destruct o as [|e]; [| by apply Hhere].
destruct (IH st1 hashes1 r Hr) as [Hin | (Hpath & Hrest)]; [by apply Hhere |].
right. split; [by right | done].
Qed.

(** X7.  Where the rows of a scan come from: every row of the catalog
    after [find_duplicates_and_store] was in the catalog before, or its
    path is one of the files, its hash is the digest of that file, its
    flag is 0 or 1, and its size and its two dates are what
    [get_file_info] returned for that file. *)
Theorem scan_rows_come_from_the_files st files r :
r ∈ catalog (scan_state (find_duplicates_and_store w st files)) →
r ∈ catalog st
∨ (path r ∈ files
   ∧ hash_file w (path r) = Ok (hash r)
   ∧ (duplicate r = 0 ∨ duplicate r = 1)
   ∧ ∃ now, (get_file_info w now (path r)).2
            = Ok (size r, date_taken r, date_saved r)).
Proof. rewrite find_duplicates_and_store_loop. apply loop_rows. Qed.

(** The dictionary within the catalog, and an unflagged row for every
    hash: both are kept by an iteration. *)
Lemma process_file_has_unflagged st hashes file :
(∀ h, is_Some (hashes !! h) → is_Some (select_hash (catalog st) h)) →
has_unflagged (catalog st) →
has_unflagged (catalog (loop_state (process_file w st hashes file))).
Proof.
intros Hseen Hhas.
destruct (process_file w st hashes file) as [[[evs st1] hashes1] o] eqn:Hbody.
apply process_file_kind in Hbody. unfold loop_state. simpl.
inversion Hbody as [e -> _ | _ Hcat _ | r _ Hcat _ _ Hflag]; [done | by rewrite Hcat |].
rewrite Hcat. intros r' [Hold | ->%list_elem_of_singleton]%elem_of_app.
- destruct (Hhas r' Hold) as (r0 & Hin & Hh & Hf).
  exists r0. split; [apply elem_of_app; by left | done].
- destruct Hflag as [(Hdup & _ & Hknown) | (Hdup & _)].
  + assert (is_Some (select_hash (catalog st) (hash r))) as Hdb.
    { destruct Hknown as [Hdb | Hs]; [done | by apply Hseen]. }
    apply select_hash_Some in Hdb as (r1 & Hin1 & Hh1).
    destruct (Hhas r1 Hin1) as (r0 & Hin & Hh & Hf).
    exists r0. split; [apply elem_of_app; by left |].
    split; [congruence | done].
  + exists r. split; [apply elem_of_app; right; by left |].
    split; [done |]. unfold duplicateFlag. by rewrite Hdup.
Qed.

Lemma loop_has_unflagged files st hashes :
(∀ h, is_Some (hashes !! h) → is_Some (select_hash (catalog st) h)) →
has_unflagged (catalog st) →
has_unflagged (catalog (loop_state (loop w st hashes files))).
Proof.
revert st hashes. induction files as [|f rest IH]; intros st hashes Hseen Hhas;
  [done |].
rewrite loop_state_cons.
pose proof (process_file_has_unflagged st hashes f Hseen Hhas) as Hhas1.
destruct (process_file_catalog_only_eq w st hashes f Hseen) as [_ Hseen1].
destruct (process_file w st hashes f) as [[[evs st1] hashes1] [|e]]; [| done].
by apply IH.
Qed.

(** X8.  Exactly one first-seen row per content hash.  When the starting
    catalog has, for every hash in it, an unflagged row, and flags every
    row that follows a row with its hash (the empty catalog does both),
    then in the catalog [find_duplicates_and_store] leaves every row has
    exactly one unflagged row with its hash, and no row with that hash
    comes before it. *)
Theorem scan_exactly_one_unflagged_per_hash st files r :
first_wins (catalog st) →
has_unflagged (catalog st) →
let cat' := catalog (scan_state (find_duplicates_and_store w st files)) in
r ∈ cat' →
∃ j rj,
  cat' !! j = Some rj ∧ hash rj = hash r ∧ duplicateFlag rj = false
  ∧ ∀ i ri, cat' !! i = Some ri → hash ri = hash r →
            (j ≤ i)%nat ∧ (duplicateFlag ri = false → i = j).
Proof.
intros Hinv Hhas cat' Hr.
assert (first_wins cat') as Hinv' by (by apply scan_first_wins).
assert (has_unflagged cat') as Hhas'.
{ unfold cat'. rewrite find_duplicates_and_store_loop.
  apply loop_has_unflagged; [| done].
  intros h [x Hx]. by rewrite lookup_empty in Hx. }
destruct (Hhas' r Hr) as (rj & Hin & Hh & Hf).
apply list_elem_of_lookup in Hin as [j Hj].
exists j, rj. split_and!; [done | done | done |].
intros i ri Hi Hhi.
destruct (decide (i = j)) as [-> | Hne]; [split; [lia | done] |].
destruct (first_wins_unflagged cat' Hinv' j rj Hj Hf i ri Hi ltac:(congruence) Hne)
  as [Hlt Hflag].
split; [lia |]. intros Hfalse. congruence.
Qed.

End ScanRun.

(** ** The scan of [findmediafiles.py] *)

Section FirstScanner.

Import Catalog.
Variable w : World.

Lemma first_scanner_loop_cons st hashes file rest :
FindMediaFiles.loop w st hashes (file :: rest)
= match FindMediaFiles.process_file w st hashes file with
  | (evs, st', hashes', Completed) =>
      let '(evs', st'', hashes'', o) := FindMediaFiles.loop w st' hashes' rest in
      (evs ++ evs', st'', hashes'', o)
  | stopped => stopped
  end.
Proof. done. Qed.

(** One iteration: an exception and nothing else, or one more row for the
    file, flagged exactly when the dictionary holds its hash. *)
Lemma first_scanner_step st hashes file :
let step := FindMediaFiles.process_file w st hashes file in
(∃ e, loop_outcome step = Raised e
      ∧ loop_state step = st ∧ loop_map step = hashes)
∨ (∃ r, loop_outcome step = Completed
        ∧ catalog (loop_state step) = catalog st ++ [r]
        ∧ path r = file
        ∧ hash_file w file = Ok (hash r)
        ∧ (∃ d, os_path_getctime w file = Some d
                ∧ date_taken r = Py.isoformat d)
        ∧ (∃ now, date_saved r = Py.isoformat (datetime_now w now))
        ∧ loop_map step = <[hash r := default (hash r) (hashes !! hash r)]> hashes
        ∧ duplicate r = match hashes !! hash r with Some _ => 1 | None => 0 end).
Proof.
unfold FindMediaFiles.process_file, FindMediaFiles.get_file_info.
destruct (hash_file w file) as [file_hash|e]; [| left; by exists e].
destruct (os_path_getsize w file) as [size|]; [| left; by eexists].
destruct (os_path_getctime w file) as [d|]; [| left; by eexists].
destruct (hashes !! file_hash) as [seen|] eqn:Hseen; right.
- eexists (Build_row file_hash file size _ _ 1).
  unfold loop_outcome, loop_state, loop_map. simpl. rewrite Hseen. simpl.
  split_and!; eauto. by rewrite insert_id.
- eexists (Build_row file_hash file size _ _ 0).
  unfold loop_outcome, loop_state, loop_map. simpl. rewrite Hseen.
  split_and!; eauto.
Qed.

Lemma first_scanner_loop_paths files st hashes :
loop_outcome (FindMediaFiles.loop w st hashes files) = Completed →
paths (loop_state (FindMediaFiles.loop w st hashes files)) = paths st ++ files.
Proof.
revert st hashes. induction files as [|f rest IH]; intros st hashes.
{ intros _. unfold paths, loop_state. simpl. by rewrite app_nil_r. }
rewrite first_scanner_loop_cons.
destruct (first_scanner_step st hashes f)
  as [(e & Ho & _) | (r & Ho & Hcat & Hpath & _)];
  destruct (FindMediaFiles.process_file w st hashes f)
    as [[[evs st1] hashes1] o];
  unfold loop_outcome, loop_state in *; simpl in *; subst o; [done |].
specialize (IH st1 hashes1).
destruct (FindMediaFiles.loop w st1 hashes1 rest) as [[[evs' st2] hashes2] o'].
simpl in *. intros Hdone. rewrite (IH Hdone). unfold paths.
rewrite Hcat, fmap_app. simpl. rewrite Hpath. by rewrite <- app_assoc.
Qed.

(** X9.  The first scanner has no path check: a call of its
    [find_duplicates_and_store] that is not ended by an exception appends
    one row for every file of the list, in the order of the list, to
    whatever the catalog held, so that a scan of files that are cataloged
    already doubles their rows. *)
Theorem first_scanner_inserts_every_file st files :
scan_outcome (FindMediaFiles.find_duplicates_and_store w st files) = Completed →
paths (scan_state (FindMediaFiles.find_duplicates_and_store w st files))
= paths st ++ files.
Proof.
unfold FindMediaFiles.find_duplicates_and_store.
pose proof (first_scanner_loop_paths files st ∅) as Hloop.
destruct (FindMediaFiles.loop w st ∅ files) as [[[evs st'] hashes'] o].
exact Hloop.
Qed.

Lemma first_scanner_loop_first_wins files st hashes :
(∀ h, is_Some (hashes !! h) ↔ is_Some (select_hash (catalog st) h)) →
first_wins (catalog st) → has_unflagged (catalog st) →
first_wins (catalog (loop_state (FindMediaFiles.loop w st hashes files)))
∧ has_unflagged (catalog (loop_state (FindMediaFiles.loop w st hashes files))).
Proof.
revert st hashes.
induction files as [|f rest IH]; intros st hashes Hseen Hinv Hhas; [done |].
rewrite first_scanner_loop_cons.
destruct (first_scanner_step st hashes f)
  as [(e & Ho & Hst & _) | (r & Ho & Hcat & _ & _ & _ & _ & Hmap & Hdup)];
  destruct (FindMediaFiles.process_file w st hashes f)
    as [[[evs st1] hashes1] o];
  unfold loop_outcome, loop_state, loop_map in *; simpl in *; subst o.
{ by subst st1. }
assert (first_wins (catalog st1) ∧ has_unflagged (catalog st1)
        ∧ ∀ h, is_Some (hashes1 !! h) ↔ is_Some (select_hash (catalog st1) h))
  as (Hinv1 & Hhas1 & Hseen1).
{ rewrite Hcat. split_and!.
  - apply (first_wins_insert _ r Hinv).
    destruct (hashes !! hash r) as [x|] eqn:Hx.
    + left. unfold duplicateFlag. by rewrite Hdup.
    + right. apply select_hash_None.
      destruct (select_hash (catalog st) (hash r)) eqn:Hdb; [| done].
      destruct (proj2 (Hseen (hash r))) as [y Hy]; [eauto | congruence].
  - intros r' [Hold | ->%list_elem_of_singleton]%elem_of_app.
    + destruct (Hhas r' Hold) as (r0 & Hin & Hh & Hf).
      exists r0. split; [apply elem_of_app; by left | done].
    + destruct (hashes !! hash r) as [x|] eqn:Hx.
      * destruct (proj1 (Hseen (hash r))) as [y Hy]; [by rewrite Hx |].
        assert (is_Some (select_hash (catalog st) (hash r))) as Hdb by eauto.
        apply select_hash_Some in Hdb as (r1 & Hin1 & Hh1).
        destruct (Hhas r1 Hin1) as (r0 & Hin & Hh & Hf).
        exists r0. split; [apply elem_of_app; by left |].
        split; [congruence | done].
      * exists r. split; [apply elem_of_app; right; by left |].
        split; [done |]. unfold duplicateFlag. by rewrite Hdup.
  - intros h. rewrite Hmap.
    destruct (decide (hash r = h)) as [<- | Hne].
    + rewrite lookup_insert_eq. split; intros _; [| eauto].
      apply (select_hash_insert_new (catalog st) r).
    + rewrite lookup_insert_ne by done. rewrite Hseen.
      rewrite !select_hash_Some. split; intros (r0 & Hin & Hh).
      * exists r0. split; [apply elem_of_app; by left | done].
      * apply elem_of_app in Hin as [Hin | ->%list_elem_of_singleton];
          [eauto | done]. }
specialize (IH st1 hashes1 Hseen1 Hinv1 Hhas1).
by destruct (FindMediaFiles.loop w st1 hashes1 rest) as [[[evs' st2] hashes2] o'].
Qed.

(** X10.  Started on the empty catalog, one call of the first scanner's
    [find_duplicates_and_store] keeps the duplicate flags right without
    looking at the catalog: every row that follows a row with its hash is
    flagged, and every hash has an unflagged row. *)
Theorem first_scanner_flags_within_one_call now files :
let cat' :=
  catalog (scan_state
             (FindMediaFiles.find_duplicates_and_store w
                {| catalog := []; clock := now |} files)) in
first_wins cat' ∧ has_unflagged cat'.
Proof.
unfold FindMediaFiles.find_duplicates_and_store.
pose proof (first_scanner_loop_first_wins files {| catalog := []; clock := now |} ∅)
  as Hloop.
destruct (FindMediaFiles.loop w {| catalog := []; clock := now |} ∅ files)
  as [[[evs st'] hashes'] o].
apply Hloop.
- intros h. rewrite lookup_empty. simpl. split; intros [x Hx]; discriminate.
- intros i j ri rj _ Hi. inversion Hi.
- intros r Hr. inversion Hr.
Qed.

End FirstScanner.

(** ** The run of [reorder.py] as a whole *)

Section ReorganizeRun.

Import Reorder.
Context `{Platform} `{FileSystem}.

(** The iterations by their outcome. *)
Lemma relocate_outcome fs (moved_files : gmap string string) r :
let step := relocate fs moved_files r in
(loop_outcome step = Completed
 ∧ ∃ e, List.filter is_log (loop_events step) = [(r, e)])
∨ (∃ base_dir,
     base_dir_of (file_path r) = Some base_dir
     ∧ (os_makedirs fs (destination_dir_of base_dir r)).2 = false
     ∧ loop_outcome step = Raised (OSError (destination_dir_of base_dir r))
     ∧ loop_events step = [(r, CallMakedirs (destination_dir_of base_dir r))]).
Proof.
unfold relocate.
destruct (moved_files !! file_hash r); [left; split; [done | by eexists] |].
destruct (base_dir_of (file_path r)) as [base_dir|];
  [| left; split; [done | by eexists]].
destruct (os_makedirs fs (destination_dir_of base_dir r)) as [fs1 [|]] eqn:Hdir.
- left.
  destruct (shutil_move fs1 (file_path r) (destination_path_of base_dir r))
    as [fs2 [|]]; split; [done | by eexists | done | by eexists].
- right. exists base_dir. by rewrite Hdir.
Qed.

Lemma relocate_move_destination fs (moved_files : gmap string string) r x d :
(x, LogMoved d) ∈ loop_events (relocate fs moved_files r) →
x = r
∧ ∃ base_dir,
    base_dir_of (file_path r) = Some base_dir
    ∧ d = destination_path_of base_dir r.
Proof.
unfold relocate.
destruct (moved_files !! file_hash r).
{ by intros [=]%list_elem_of_singleton. }
destruct (base_dir_of (file_path r)) as [base_dir|].
2: { by intros [=]%list_elem_of_singleton. }
destruct (os_makedirs fs (destination_dir_of base_dir r)) as [fs1 [|]].
2: { by intros [=]%list_elem_of_singleton. }
destruct (shutil_move fs1 (file_path r) (destination_path_of base_dir r))
  as [fs2 [|]]; unfold loop_events; simpl; intros Hin;
  repeat (apply elem_of_cons in Hin as [Heq | Hin]; [try done |]);
  try by inversion Hin.
injection Heq as -> ->. eauto.
Qed.

Lemma reorder_loop_move_destination file_records fs
    (moved_files : gmap string string) x d :
(x, LogMoved d) ∈ loop_events (loop fs moved_files file_records) →
x ∈ file_records
∧ ∃ base_dir,
    base_dir_of (file_path x) = Some base_dir
    ∧ d = destination_path_of base_dir x.
Proof.
revert fs moved_files.
induction file_records as [|r rest IH]; intros fs moved_files Hin.
{ inversion Hin. }
rewrite reorder_loop_cons in Hin.
pose proof (relocate_move_destination fs moved_files r x d) as Hstep.
destruct (relocate fs moved_files r) as [[[evs fs1] moved1] o].
unfold loop_events in *; simpl in *.
assert ((x, LogMoved d) ∈ evs →
        x ∈ r :: rest
        ∧ ∃ base_dir, base_dir_of (file_path x) = Some base_dir
                      ∧ d = destination_path_of base_dir x) as Hhere.
{ intros Hx. destruct (Hstep Hx) as [-> Hdest]. split; [by left | done]. }
destruct o as [|e]; [| by apply Hhere].
specialize (IH fs1 moved1).
destruct (loop fs1 moved1 rest) as [[[evs' fs2] moved2] o'].
simpl in *. apply elem_of_app in Hin as [Hin | Hin]; [by apply Hhere |].
destruct (IH Hin) as [Hx Hdest]. split; [by right | done].
Qed.

(** X11.  What [moved_files] holds at the end of a run: every hash it
    records is the hash of a row of the catalog whose extension is
    recognised, and the recorded path is the destination of that row,
    that is the base directory of its kind, then the first four
    characters of its [date_taken], then the name of its file. *)
Theorem reorder_records_destinations (fs : FS) (cat : list Catalog.row) h d :
loop_map (reorder fs cat) !! h = Some d →
∃ r base_dir,
  r ∈ Catalog.select_all cat
  ∧ file_hash r = h
  ∧ base_dir_of (file_path r) = Some base_dir
  ∧ (base_dir = BASE_PHOTO_DIR ∨ base_dir = BASE_VIDEO_DIR)
  ∧ d = os_path_join (os_path_join base_dir (Py.slice_to 4 (date_taken r)))
                     (Path_name (file_path r)).
Proof.
unfold reorder. intros Hd.
apply reorder_loop_recorded_by_move in Hd as [Hempty | (r & Hh & Hin)].
{ by rewrite lookup_empty in Hempty. }
apply reorder_loop_move_destination in Hin as (Hr & base_dir & Hbase & ->).
exists r, base_dir. split_and!; [done | done | done | | done].
unfold base_dir_of in Hbase. repeat case_match; naive_solver.
Qed.

Lemma reorder_loop_logs file_records fs (moved_files : gmap string string) :
loop_outcome (loop fs moved_files file_records) = Completed →
(List.filter is_log (loop_events (loop fs moved_files file_records))).*1
= file_records.
Proof.
revert fs moved_files.
induction file_records as [|r rest IH]; intros fs moved_files; [done |].
rewrite reorder_loop_cons.
destruct (relocate_outcome fs moved_files r)
  as [[Ho [e Hlog]] | (base_dir & _ & _ & Ho & _)];
  destruct (relocate fs moved_files r) as [[[evs fs1] moved1] o];
  unfold loop_outcome, loop_events in *; simpl in *; subst o; [| done].
specialize (IH fs1 moved1).
destruct (loop fs1 moved1 rest) as [[[evs' fs2] moved2] o'].
simpl in *. intros Hdone.
by rewrite List.filter_app, Hlog, fmap_app, (IH Hdone).
Qed.

(** X13.  A run that completes writes exactly one log record for every
    row of the catalog, in the order of the rows: the skip of a recorded
    hash, the warning for an unknown type, the move, or the error of the
    move. *)
Theorem reorder_logs_every_row_once (fs : FS) (cat : list Catalog.row) :
loop_outcome (reorder fs cat) = Completed →
(List.filter is_log (loop_events (reorder fs cat))).*1
= Catalog.select_all cat.
Proof. apply reorder_loop_logs. Qed.

(** X14.  The year directory of a row whose [date_taken] the scanner took
    from the creation time or from the video metadata is the four-digit
    year of that date, under the base directory. *)
Theorem year_directory_of_scanned_date base_dir p h (d : Py.datetime) :
destination_dir_of base_dir (p, h, Py.isoformat d)
= os_path_join base_dir (Py.pad4 (Py.year d))
∧ destination_dir_of base_dir (p, h, Py.strftime_Ymd_HMS d)
  = os_path_join base_dir (Py.pad4 (Py.year d)).
Proof.
unfold destination_dir_of, date_taken, Py.isoformat, Py.strftime_Ymd_HMS,
  Py.date_part, Py.pad4, Py.pad2.
by split.
Qed.

End ReorganizeRun.

(** ** [hash_file] *)

Section Hashing.

Import HashFile.
Context `{Hasher}.

Lemma update_chunks_all (size : nat) :
(0 < size)%nat →
∀ fuel hasher unread,
  (length unread < fuel)%nat →
  ∃ chunks,
    update_chunks size fuel hasher unread = Some (update hasher unread, chunks)
    ∧ concat chunks = unread
    ∧ Forall (λ chunk, (0 < length chunk ≤ size)%nat) chunks.
Proof.
intros Hsize fuel. induction fuel as [|fuel IH]; intros hasher unread Hfuel; [lia |].
cbn [update_chunks]. unfold read.
destruct (take size unread) as [|b chunk] eqn:Hchunk.
- assert (unread = []) as ->.
  { destruct unread as [|b rest]; [done |]. destruct size; [lia | done]. }
  exists []. by rewrite update_empty.
- assert (length (drop size unread) < fuel)%nat as Hrest.
  { rewrite length_drop. destruct unread; [by rewrite take_nil in Hchunk |].
    simpl in *. lia. }
  destruct (IH (update hasher (b :: chunk)) (drop size unread) Hrest)
    as (chunks & -> & Hconcat & Hall).
  exists ((b :: chunk) :: chunks). split_and!.
  + by rewrite update_concat, <- Hchunk, take_drop.
  + simpl. rewrite Hconcat. rewrite app_comm_cons, <- Hchunk. apply take_drop.
  + constructor; [| done]. rewrite <- Hchunk, length_take. simpl.
    apply (f_equal length) in Hchunk. rewrite length_take in Hchunk.
    simpl in Hchunk. lia.
Qed.

(** X15.  [hash_file] returns the digest of the whole content: for a file
    that can be opened, the loop that reads 4096 bytes at a time ends
    (after at most one iteration more than the file has bytes) and the
    hex digest is that of one [update] with all the bytes of the file;
    the chunks the hash object is fed are never empty, never longer than
    4096 bytes, and together they are the file. *)
Theorem hash_file_digest_of_whole_content
    (open_rb : string → option (list Byte.byte)) (fuel : nat)
    (filepath : string) (content : list Byte.byte) :
open_rb filepath = Some content →
(length content < fuel)%nat →
hash_file open_rb fuel filepath
= Some (Ok (hexdigest (update hashlib_sha1 content)))
∧ ∃ chunks,
    snd <$> update_chunks 4096 fuel hashlib_sha1 content = Some chunks
    ∧ concat chunks = content
    ∧ Forall (λ chunk, (0 < length chunk ≤ 4096)%nat) chunks.
Proof.
intros Hopen Hfuel. unfold hash_file. rewrite Hopen.
destruct (update_chunks_all 4096 ltac:(lia) fuel hashlib_sha1 content Hfuel)
  as (chunks & -> & Hconcat & Hall).
split; [done |]. by exists chunks.
Qed.

End Hashing.

(** ** [find_media_files] and the scanner script *)

Section Discover.

Import Discovery.
Context `{Platform}.
Variable os_walk : string → list (string * list string).

Lemma image_is_not_video ext :
ext_in ext IMAGE_EXTENSIONS = true → ext_in ext VIDEO_EXTENSIONS = false.
Proof.
unfold ext_in. intros Hin%bool_decide_eq_true.
unfold IMAGE_EXTENSIONS in Hin.
repeat (apply elem_of_cons in Hin as [-> | Hin]; [by vm_compute |]).
inversion Hin.
Qed.

Lemma add_files dirpath filenames media :
foldl (λ media filename, add_file media dirpath filename) media filenames
= {| images := images media
                 ++ (os_path_join dirpath <$> List.filter is_image filenames);
     videos := videos media
                 ++ (os_path_join dirpath <$> List.filter is_video filenames) |}.
Proof.
revert media. induction filenames as [|f rest IH]; intros media.
{ simpl. rewrite !app_nil_r. by destruct media. }
simpl. rewrite IH. unfold add_file, is_image, is_video.
destruct (ext_in (Py.lower (splitext_ext f)) IMAGE_EXTENSIONS) eqn:Himg.
- rewrite (image_is_not_video _ Himg). simpl. by rewrite <- app_assoc.
- destruct (ext_in (Py.lower (splitext_ext f)) VIDEO_EXTENSIONS); simpl;
    [by rewrite <- app_assoc | done].
Qed.

Lemma add_walk walk media :
foldl (λ media '(dirpath, filenames),
         foldl (λ media filename, add_file media dirpath filename)
               media filenames) media walk
= {| images := images media ++ walked is_image walk;
     videos := videos media ++ walked is_video walk |}.
Proof.
revert media. induction walk as [|[dirpath filenames] rest IH]; intros media.
{ unfold walked. simpl. rewrite !app_nil_r. by destruct media. }
simpl. rewrite add_files, IH. simpl. unfold walked. simpl.
by rewrite <- !app_assoc.
Qed.

Lemma find_media_files_walked start_path :
find_media_files os_walk start_path
= {| images := walked is_image (os_walk start_path);
     videos := walked is_video (os_walk start_path) |}.
Proof. unfold find_media_files. by rewrite add_walk. Qed.

Lemma all_media_files_walked paths_to_search :
all_media_files os_walk paths_to_search
= {| images := paths_to_search ≫= λ p, walked is_image (os_walk p);
     videos := paths_to_search ≫= λ p, walked is_video (os_walk p) |}.
Proof.
unfold all_media_files.
assert (∀ all,
  foldl (λ all path,
           let found := find_media_files os_walk path in
           {| images := images all ++ images found;
              videos := videos all ++ videos found |}) all paths_to_search
  = {| images := images all ++ (paths_to_search ≫= λ p, walked is_image (os_walk p));
       videos := videos all ++ (paths_to_search ≫= λ p, walked is_video (os_walk p)) |})
  as Hfold.
{ induction paths_to_search as [|p rest IH]; intros all.
  - simpl. rewrite !app_nil_r. by destruct all.
  - simpl. rewrite IH, find_media_files_walked. simpl.
    by rewrite <- !app_assoc. }
by rewrite Hfold.
Qed.

(** X16.  What [find_media_files] returns: the list of images is, in the
    order of the walk, the joined path of every file whose lower-cased
    extension is an image extension, the list of videos the same for the
    video extensions; no file is in both lists, and a file with any other
    extension is in neither. *)
Theorem find_media_files_lists_by_extension start_path :
images (find_media_files os_walk start_path)
= walked is_image (os_walk start_path)
∧ videos (find_media_files os_walk start_path)
  = walked is_video (os_walk start_path)
∧ ∀ filename, is_image filename = true → is_video filename = false.
Proof.
rewrite find_media_files_walked. split_and!; [done | done |].
intros filename. apply image_is_not_video.
Qed.

Lemma walked_elem test walk dirpath filenames filename :
(dirpath, filenames) ∈ walk → filename ∈ filenames → test filename = true →
os_path_join dirpath filename ∈ walked test walk.
Proof.
intros Hdir Hfile Htest. unfold walked.
apply list_elem_of_bind. exists (dirpath, filenames). split; [| done].
apply list_elem_of_fmap. exists filename. split; [done |].
apply list_elem_of_In, filter_In. split; [by apply list_elem_of_In | done].
Qed.

(** X17.  When the script of [getmediainfo.py] runs to its end, every
    file under one of the paths to search whose extension is an image or
    a video extension has a row in the catalog, under its joined path. *)
Theorem script_catalogs_every_media_file (w : World) (st : state)
    paths_to_search start_path dirpath filenames filename :
scan_outcome (getmediainfo_script os_walk w st paths_to_search) = Completed →
start_path ∈ paths_to_search →
(dirpath, filenames) ∈ os_walk start_path →
filename ∈ filenames →
(is_image filename || is_video filename) = true →
os_path_join dirpath filename
  ∈ paths (scan_state (getmediainfo_script os_walk w st paths_to_search)).
Proof.
unfold getmediainfo_script. rewrite all_media_files_walked. simpl.
intros Hdone Hstart Hdir Hfile Hkind.
apply main_completed_covers; [done |].
apply elem_of_app.
apply orb_prop in Hkind as [Himg | Hvid]; [left | right];
  apply list_elem_of_bind; exists start_path;
  (split; [by eapply walked_elem | done]).
Qed.

End Discover.

(** ** The extension of a file, for the walk and for the catalog *)

Section Extensions.

Import Discovery.
Context `{Platform}.

Lemma substring_length_le (s : string) (n m : nat) :
(String.length (String.substring n m s) ≤ m)%nat.
Proof.
revert n m. induction s as [|c s IH]; intros [|n] [|m]; simpl; try lia.
- specialize (IH 0%nat m). lia.
- apply IH.
- apply IH.
Qed.

Lemma lower_length (s : string) :
String.length (Py.lower s) = String.length s.
Proof. induction s as [|c s IH]; simpl; [done | by rewrite IH]. Qed.

Lemma known_extension_length ext :
ext_in ext IMAGE_EXTENSIONS = true ∨ ext_in ext VIDEO_EXTENSIONS = true →
(4 ≤ String.length ext)%nat.
Proof.
unfold ext_in, IMAGE_EXTENSIONS, VIDEO_EXTENSIONS.
intros [Hin%bool_decide_eq_true | Hin%bool_decide_eq_true];
  repeat (apply elem_of_cons in Hin as [-> | Hin]; [simpl; lia |]);
  inversion Hin.
Qed.

Lemma has_non_dot_before_pos (i : nat) (s : string) :
has_non_dot_before i s = true → (0 < i)%nat.
Proof. destruct i; [done | lia]. Qed.

(** For a name with a recognised extension, [os.path.splitext] and
    [Path.suffix] give the same extension. *)
Lemma splitext_is_suffix filename :
ext_in (Py.lower (splitext_ext filename)) IMAGE_EXTENSIONS = true
∨ ext_in (Py.lower (splitext_ext filename)) VIDEO_EXTENSIONS = true →
Py.suffix_of_name filename = splitext_ext filename.
Proof.
intros Hknown. pose proof (known_extension_length _ Hknown) as Hlen.
rewrite lower_length in Hlen. revert Hlen.
unfold splitext_ext, Py.suffix_of_name.
destruct (Py.rfind "." filename) as [i|]; [| done].
destruct (has_non_dot_before i filename) eqn:Hdot; [| simpl; lia].
apply has_non_dot_before_pos in Hdot. unfold Py.slice_from. intros Hlen.
pose proof (substring_length_le filename i (String.length filename - i)) as Hle.
assert ((0 <? i)%nat = true) as -> by (apply Nat.ltb_lt; lia).
assert ((S i <? String.length filename)%nat = true) as ->
  by (apply Nat.ltb_lt; lia).
done.
Qed.

(** X18.  A file that [find_media_files] lists is of the same kind for the
    rest of the program: when the name of the joined path is the file
    name, the extension [get_file_info] and [reorder.py] take from the
    path with [Path.suffix] is the one the walk took from the name with
    [os.path.splitext], so that [reorder.py] files a listed image under
    the photo directory and a listed video under the video directory,
    and never skips it as of unknown type. *)
Theorem listed_file_keeps_its_kind dirpath filename :
Path_name (os_path_join dirpath filename) = filename →
(is_image filename || is_video filename) = true →
Path_suffix (os_path_join dirpath filename) = splitext_ext filename
∧ Reorder.base_dir_of (os_path_join dirpath filename)
  = Some (if is_image filename
          then Reorder.BASE_PHOTO_DIR else Reorder.BASE_VIDEO_DIR).
Proof.
intros Hname Hkind. unfold is_image, is_video in *.
assert (Path_suffix (os_path_join dirpath filename) = splitext_ext filename)
  as Hsuffix.
{ unfold Path_suffix. rewrite Hname. apply splitext_is_suffix.
  by apply orb_prop in Hkind. }
split; [done |]. unfold Reorder.base_dir_of. rewrite Hsuffix.
destruct (ext_in (Py.lower (splitext_ext filename)) IMAGE_EXTENSIONS); [done |].
simpl in Hkind. by rewrite Hkind.
Qed.

End Extensions.

(** ** The catalog operations *)

Section CatalogOperations.

Import Catalog.

Lemma select_hash_is_hash (cat : list row) (h x : string) :
select_hash cat h = Some x → x = h.
Proof.
unfold select_hash. induction cat as [|r cat IH]; [done |].
rewrite filter_cons. destruct (decide (hash r = h)) as [Heq|Hne]; [| done].
simpl. by intros [= <-].
Qed.

(** X19.  A row that [insert_file_info] has stored is seen by the next
    queries: the path query counts one row more for its path and as many
    as before for every other path, the hash query finds its hash and
    answers for every other hash as before, and the [SELECT] of
    [reorder.py] lists the new row after all the others. *)
Theorem inserted_row_is_seen (st : state) (r : row) (p h : string) :
let st' := insert_file_info st r in
count_path (catalog st') p
= (count_path (catalog st) p + (if decide (path r = p) then 1 else 0))%nat
∧ select_hash (catalog st') (hash r) = Some (hash r)
∧ (hash r ≠ h → select_hash (catalog st') h = select_hash (catalog st) h)
∧ select_all (catalog st')
  = select_all (catalog st) ++ [(path r, hash r, date_taken r)].
Proof.
simpl. unfold insert. split_and!.
- unfold count_path. rewrite filter_app, length_app, filter_cons.
  by destruct (decide (path r = p)).
- destruct (select_hash_insert_new (catalog st) r) as [x Hx].
  unfold insert in Hx. rewrite Hx. f_equal. by eapply select_hash_is_hash.
- intros Hne. unfold select_hash.
  rewrite filter_app, filter_cons.
  destruct (decide (hash r = h)); [done |]. by rewrite app_nil_r.
- unfold select_all. by rewrite fmap_app.
Qed.

Lemma update_duplicate_count_lookup (st : state) (h : string) (i : nat) r' :
catalog (update_duplicate_count st h) !! i = Some r' →
∃ r, catalog st !! i = Some r
     ∧ hash r' = hash r ∧ path r' = path r
     ∧ duplicate r' = (if decide (hash r = h) then duplicate r + 1 else duplicate r).
Proof.
unfold update_duplicate_count. simpl. rewrite list_lookup_fmap.
destruct (catalog st !! i) as [r|]; [| done].
simpl. intros [= <-]. exists r. split; [done |].
by destruct (decide (hash r = h)).
Qed.

(** X20.  [update_duplicate_count], on a catalog whose counters are not
    negative: the rows keep their number, paths and hashes; afterwards
    every row with the given hash is flagged, the first-seen one too;
    the rows with another hash keep their counter; and every row that
    follows a row with its hash is still flagged. *)
Theorem update_duplicate_count_flags_all (st : state) (h : string) :
Forall (λ r, 0 ≤ duplicate r) (catalog st) →
first_wins (catalog st) →
let st' := update_duplicate_count st h in
paths st' = paths st
∧ hash <$> catalog st' = hash <$> catalog st
∧ (∀ r, r ∈ catalog st' → hash r = h → duplicateFlag r = true)
∧ (∀ r, r ∈ catalog st → hash r ≠ h → r ∈ catalog st')
∧ first_wins (catalog st').
Proof.
intros Hpos Hinv st'. split_and!.
- unfold paths, st', update_duplicate_count. simpl. rewrite <- list_fmap_compose.
  apply list_fmap_ext. intros i r _. simpl. by destruct (decide (hash r = h)).
- unfold st', update_duplicate_count. simpl. rewrite <- list_fmap_compose.
  apply list_fmap_ext. intros i r _. simpl. by destruct (decide (hash r = h)).
- intros r' [i Hi]%list_elem_of_lookup Hh.
  apply update_duplicate_count_lookup in Hi as (r & Hr & Hhash & _ & Hdup).
  rewrite Forall_forall in Hpos.
  assert (0 ≤ duplicate r) as Hr0.
  { apply Hpos, list_elem_of_lookup. eauto. }
  rewrite decide_True in Hdup by congruence.
  unfold duplicateFlag. rewrite Hdup.
  apply negb_true_iff, Z.eqb_neq. lia.
- intros r Hin Hne. unfold st', update_duplicate_count. simpl.
  apply list_elem_of_fmap. exists r. split; [| done].
  by rewrite decide_False.
- intros i j ri' rj' Hij Hi Hj Heq.
  apply update_duplicate_count_lookup in Hi as (ri & Hri & Hhi & _ & _).
  apply update_duplicate_count_lookup in Hj as (rj & Hrj & Hhj & _ & Hdup).
  assert (duplicateFlag rj = true) as Hflag.
  { apply (Hinv i j ri rj Hij Hri Hrj). congruence. }
  rewrite Forall_forall in Hpos.
  assert (0 ≤ duplicate rj) as Hr0.
  { apply Hpos, list_elem_of_lookup. eauto. }
  unfold duplicateFlag in *. rewrite Hdup.
  apply negb_true_iff, Z.eqb_neq in Hflag.
  apply negb_true_iff, Z.eqb_neq.
  destruct (decide (hash rj = h)); lia.
Qed.

End CatalogOperations.

(** ** The paths a scan adds *)

Section ScanPaths.

Import Catalog GetMediaInfo.
Context `{Platform}.
Variable w : World.

Lemma filter_absent_snoc (known rest : list string) (f : string) :
f ∉ rest →
filter (λ g, g ∉ known ++ [f]) rest = filter (λ g, g ∉ known) rest.
Proof.
induction rest as [|g rest IH]; intros Hf; [done |].
apply not_elem_of_cons in Hf as [Hne Hf].
rewrite !filter_cons, (IH Hf).
destruct (decide (g ∉ known ++ [f])) as [Hin | Hin],
         (decide (g ∉ known)) as [Hin' | Hin']; try done.
- exfalso. apply Hin'. intros Hk. apply Hin, elem_of_app. by left.
- exfalso. apply Hin. intros [Hk | Hk%list_elem_of_singleton]%elem_of_app;
    [done | congruence].
Qed.

Lemma loop_paths_exact files st hashes :
NoDup files →
loop_outcome (loop w st hashes files) = Completed →
paths (loop_state (loop w st hashes files))
= paths st ++ filter (λ f, f ∉ paths st) files.
Proof.
revert st hashes. induction files as [|f rest IH]; intros st hashes Hnd.
{ intros _. unfold loop_state. simpl. by rewrite app_nil_r. }
apply NoDup_cons in Hnd as [Hf Hrest].
rewrite loop_outcome_cons, loop_state_cons.
destruct (process_file w st hashes f) as [[[evs st1] hashes1] o] eqn:Hbody.
apply process_file_kind in Hbody.
destruct o as [|e]; [| done].
intros Hdone. rewrite (IH st1 hashes1 Hrest Hdone), filter_cons.
inversion Hbody as [ | Hin Hcat _ | r Hnew Hcat Hpath _ _].
- assert (paths st1 = paths st) as -> by (unfold paths; by rewrite Hcat).
  by rewrite decide_False by (intros Hn; by apply Hn).
- rewrite decide_True by done.
  assert (paths st1 = paths st ++ [f]) as ->.
  { unfold paths. rewrite Hcat, fmap_app. simpl. by rewrite Hpath. }
  rewrite filter_absent_snoc by done. by rewrite <- app_assoc.
Qed.

(** X21.  The paths a completed scan adds: for a list without repeated
    paths, the paths of the catalog after [find_duplicates_and_store] are
    the paths it had, followed by the files of the list that were not
    among them, in the order of the list, each of them once. *)
Theorem scan_adds_the_new_paths_in_order st files :
NoDup files →
scan_outcome (find_duplicates_and_store w st files) = Completed →
paths (scan_state (find_duplicates_and_store w st files))
= paths st ++ filter (λ f, f ∉ paths st) files.
Proof.
rewrite scan_outcome_loop, find_duplicates_and_store_loop.
apply loop_paths_exact.
Qed.

End ScanPaths.

(** ** The further properties on the sample host *)

Lemma get_file_info_metadata_never_raises_witness :
∃ taken,
  (GetMediaInfo.get_file_info root 0 "/r/a.jpg").2
  = Ok (2048, taken, Py.isoformat (datetime_now root 0))
  ∧ taken ≠ "".
Proof.
apply (get_file_info_metadata_never_raises root 0 "/r/a.jpg" 2048 (noon 2021 1 2));
  reflexivity.
Defined.

Lemma get_file_info_raises_only_oserror_witness :
GetMediaInfo.get_file_info Samples.vanished 0 "/r/gone.jpg"
= ([], Err (OSError "/r/gone.jpg"))
∧ (os_path_getsize Samples.vanished "/r/gone.jpg" = None
   ∨ os_path_getctime Samples.vanished "/r/gone.jpg" = None).
Proof.
assert (GetMediaInfo.get_file_info Samples.vanished 0 "/r/gone.jpg"
        = ([], Err (OSError "/r/gone.jpg"))) as Hraises.
{ vm_compute. reflexivity. }
split; [exact Hraises |].
exact (proj2 (get_file_info_raises_only_oserror Samples.vanished 0 "/r/gone.jpg"
                [] (OSError "/r/gone.jpg") Hraises)).
Defined.

Lemma get_file_info_dates_witness :
GetMediaInfo.get_file_info root 0 "/r/b.jpg"
= ([], Ok (2048, "2021-01-02T12:00:00", "2024-05-01T12:00:00"))
∧ Iso.is_iso8601 "2024-05-01T12:00:00" = true.
Proof.
assert (GetMediaInfo.get_file_info root 0 "/r/b.jpg"
        = ([], Ok (2048, "2021-01-02T12:00:00", "2024-05-01T12:00:00"))) as Hinfo.
{ vm_compute. reflexivity. }
split; [exact Hinfo |].
exact (proj1 (get_file_info_dates root 0 "/r/b.jpg" [] 2048
                "2021-01-02T12:00:00" "2024-05-01T12:00:00" Hinfo)).
Defined.

Lemma completed_scan_catalogs_every_file_witness :
scan_outcome (GetMediaInfo.find_duplicates_and_store root empty
                ["/r/a.jpg"; "/r/b.jpg"]) = Completed
∧ "/r/b.jpg"
    ∈ paths (scan_state (GetMediaInfo.find_duplicates_and_store root empty
                           ["/r/a.jpg"; "/r/b.jpg"])).
Proof.
assert (scan_outcome (GetMediaInfo.find_duplicates_and_store root empty
                        ["/r/a.jpg"; "/r/b.jpg"]) = Completed) as Hdone.
{ vm_compute. reflexivity. }
split; [exact Hdone |].
apply (proj1 (completed_scan_catalogs_every_file root empty
                ["/r/a.jpg"; "/r/b.jpg"] [] []) Hdone).
right. left.
Defined.

Lemma readable_files_raise_no_file_error_witness :
forallb (can_read root) (["/r/a.jpg"] ++ ["/r/v.mp4"]) = true
∧ scan_outcome (GetMediaInfo.main root empty ["/r/a.jpg"] ["/r/v.mp4"])
  ≠ Raised (IOError "/r/a.jpg")
∧ scan_outcome (GetMediaInfo.main root empty ["/r/a.jpg"] ["/r/v.mp4"])
  ≠ Raised (OSError "/r/a.jpg").
Proof.
assert (forallb (can_read root) (["/r/a.jpg"] ++ ["/r/v.mp4"]) = true) as Hall.
{ reflexivity. }
split; [exact Hall |].
exact (readable_files_raise_no_file_error root empty ["/r/a.jpg"]
         ["/r/v.mp4"] "/r/a.jpg" Hall).
Defined.

Lemma scan_rows_come_from_the_files_witness :
b_row 1 ∈ catalog (scan_state
                     (GetMediaInfo.find_duplicates_and_store root one_picture
                        ["/r/b.jpg"]))
∧ (b_row 1 ∈ catalog one_picture
   ∨ (Catalog.path (b_row 1) ∈ ["/r/b.jpg"]
      ∧ hash_file root (Catalog.path (b_row 1)) = Ok (Catalog.hash (b_row 1))
      ∧ (Catalog.duplicate (b_row 1) = 0 ∨ Catalog.duplicate (b_row 1) = 1)
      ∧ ∃ now, (GetMediaInfo.get_file_info root now (Catalog.path (b_row 1))).2
               = Ok (Catalog.size (b_row 1), Catalog.date_taken (b_row 1),
                     Catalog.date_saved (b_row 1)))).
Proof.
assert (b_row 1 ∈ catalog (scan_state
                             (GetMediaInfo.find_duplicates_and_store root
                                one_picture ["/r/b.jpg"]))) as Hin.
{ vm_compute. right. left. }
split; [exact Hin |].
exact (scan_rows_come_from_the_files root one_picture ["/r/b.jpg"] (b_row 1) Hin).
Defined.

Lemma scan_exactly_one_unflagged_per_hash_witness :
Catalog.first_wins (catalog one_picture)
∧ has_unflagged (catalog one_picture)
∧ ∃ j rj,
    catalog (scan_state
               (GetMediaInfo.find_duplicates_and_store root one_picture
                  ["/r/b.jpg"])) !! j = Some rj
    ∧ Catalog.hash rj = Catalog.hash (b_row 1)
    ∧ Catalog.duplicateFlag rj = false.
Proof.
assert (Catalog.first_wins (catalog one_picture)) as Hinv.
{ apply first_wins_checked. reflexivity. }
assert (has_unflagged (catalog one_picture)) as Hhas.
{ intros r Hr. exists r. apply list_elem_of_singleton in Hr. subst r.
  split; [left | split; reflexivity]. }
assert (b_row 1 ∈ catalog (scan_state
                             (GetMediaInfo.find_duplicates_and_store root
                                one_picture ["/r/b.jpg"]))) as Hin.
{ vm_compute. right. left. }
destruct (scan_exactly_one_unflagged_per_hash root one_picture ["/r/b.jpg"]
            (b_row 1) Hinv Hhas Hin) as (j & rj & Hj & Hh & Hf & _).
split_and!; [exact Hinv | exact Hhas |]. by exists j, rj.
Defined.

Lemma first_scanner_inserts_every_file_witness :
scan_outcome (FindMediaFiles.find_duplicates_and_store root one_picture
                ["/r/a.jpg"; "/r/c.png"]) = Completed
∧ paths (scan_state
           (FindMediaFiles.find_duplicates_and_store root one_picture
              ["/r/a.jpg"; "/r/c.png"]))
  = ["/r/a.jpg"; "/r/a.jpg"; "/r/c.png"].
Proof.
assert (scan_outcome (FindMediaFiles.find_duplicates_and_store root one_picture
                        ["/r/a.jpg"; "/r/c.png"]) = Completed) as Hdone.
{ vm_compute. reflexivity. }
split; [exact Hdone |].
exact (first_scanner_inserts_every_file root one_picture
         ["/r/a.jpg"; "/r/c.png"] Hdone).
Defined.

Lemma scan_adds_the_new_paths_in_order_witness :
NoDup ["/r/a.jpg"; "/r/b.jpg"; "/r/c.png"]
∧ paths (scan_state
           (GetMediaInfo.find_duplicates_and_store root one_picture
              ["/r/a.jpg"; "/r/b.jpg"; "/r/c.png"]))
  = ["/r/a.jpg"; "/r/b.jpg"; "/r/c.png"].
Proof.
assert (NoDup ["/r/a.jpg"; "/r/b.jpg"; "/r/c.png"]) as Hnd.
{ apply (bool_decide_unpack _). reflexivity. }
split; [exact Hnd |].
rewrite (scan_adds_the_new_paths_in_order root one_picture
           ["/r/a.jpg"; "/r/b.jpg"; "/r/c.png"] Hnd); [| by vm_compute].
vm_compute. reflexivity.
Defined.

Lemma reorder_records_destinations_witness :
let fs : Reorder.FS := ["/r/a.jpg"; "/r/b.jpg"] in
loop_map (Reorder.reorder fs [a_row 0; b_row 1]) !! "da39a3ee"
= Some "H:\My Media/photos/2021/a.jpg"
∧ ∃ r base_dir,
    r ∈ Catalog.select_all [a_row 0; b_row 1]
    ∧ Reorder.file_hash r = "da39a3ee"
    ∧ Reorder.base_dir_of (Reorder.file_path r) = Some base_dir
    ∧ (base_dir = Reorder.BASE_PHOTO_DIR ∨ base_dir = Reorder.BASE_VIDEO_DIR)
    ∧ "H:\My Media/photos/2021/a.jpg"
      = os_path_join
          (os_path_join base_dir (Py.slice_to 4 (Reorder.date_taken r)))
          (Path_name (Reorder.file_path r)).
Proof.
intros fs.
assert (loop_map (Reorder.reorder fs [a_row 0; b_row 1]) !! "da39a3ee"
        = Some "H:\My Media/photos/2021/a.jpg") as Hrecorded.
{ vm_compute. reflexivity. }
split; [exact Hrecorded |].
exact (reorder_records_destinations fs [a_row 0; b_row 1] "da39a3ee"
         "H:\My Media/photos/2021/a.jpg" Hrecorded).
Defined.

Lemma reorder_logs_every_row_once_witness :
let fs : Reorder.FS := ["/r/a.jpg"] in
loop_outcome (Reorder.reorder fs [a_row 0; b_row 1; notes_row]) = Completed
∧ (List.filter is_log
     (loop_events (Reorder.reorder fs [a_row 0; b_row 1; notes_row]))).*1
  = Catalog.select_all [a_row 0; b_row 1; notes_row].
Proof.
intros fs.
assert (loop_outcome (Reorder.reorder fs [a_row 0; b_row 1; notes_row])
        = Completed) as Hdone.
{ vm_compute. reflexivity. }
split; [exact Hdone |].
exact (reorder_logs_every_row_once fs [a_row 0; b_row 1; notes_row] Hdone).
Defined.

Lemma hash_file_digest_of_whole_content_witness :
Samples.abc "/r/a.jpg" = Some [Byte.x61; Byte.x62; Byte.x63]
∧ @HashFile.hash_file HashFile.keeps_all Samples.abc 4 "/r/a.jpg"
  = Some (Ok "abc").
Proof.
split; [reflexivity |].
exact (proj1 (@hash_file_digest_of_whole_content HashFile.keeps_all
                Samples.abc 4 "/r/a.jpg"
                [Byte.x61; Byte.x62; Byte.x63] eq_refl ltac:(simpl; lia))).
Defined.

Lemma script_catalogs_every_media_file_witness :
scan_outcome (Discovery.getmediainfo_script Samples.tree root empty ["/r"])
= Completed
∧ "/r/sub/b.jpg"
    ∈ paths (scan_state
               (Discovery.getmediainfo_script Samples.tree root empty ["/r"])).
Proof.
assert (scan_outcome (Discovery.getmediainfo_script Samples.tree root empty ["/r"])
        = Completed) as Hdone.
{ vm_compute. reflexivity. }
split; [exact Hdone |].
apply (script_catalogs_every_media_file Samples.tree root empty ["/r"] "/r"
         "/r/sub" ["b.jpg"] "b.jpg" Hdone).
- left.
- right. left.
- left.
- reflexivity.
Defined.

Lemma listed_file_keeps_its_kind_witness :
Path_name (os_path_join "/r" "a.JPG") = "a.JPG"
∧ Discovery.is_image "a.JPG" = true
∧ Reorder.base_dir_of (os_path_join "/r" "a.JPG") = Some Reorder.BASE_PHOTO_DIR.
Proof.
assert (Path_name (os_path_join "/r" "a.JPG") = "a.JPG") as Hname.
{ reflexivity. }
split_and!; [exact Hname | reflexivity |].
exact (proj2 (listed_file_keeps_its_kind "/r" "a.JPG" Hname eq_refl)).
Defined.

Lemma inserted_row_is_seen_witness :
Catalog.count_path (catalog (insert_file_info one_picture (b_row 1))) "/r/b.jpg"
= 1%nat
∧ Catalog.select_hash (catalog (insert_file_info one_picture (b_row 1)))
    "3c01bdbb"
  = None.
Proof.
destruct (inserted_row_is_seen one_picture (b_row 1) "/r/b.jpg" "3c01bdbb")
  as (Hcount & _ & Hother & _).
split; [exact Hcount |].
rewrite Hother; [reflexivity | discriminate].
Defined.

Lemma update_duplicate_count_flags_all_witness :
let st := {| catalog := [a_row 0; b_row 1; locked_row]; clock := 3 |} in
Forall (λ r, 0 ≤ Catalog.duplicate r) (catalog st)
∧ Catalog.first_wins (catalog st)
∧ Catalog.duplicate <$> catalog (update_duplicate_count st "da39a3ee")
  = [1; 2; 0]
∧ Catalog.first_wins (catalog (update_duplicate_count st "da39a3ee")).
Proof.
intros st.
assert (Forall (λ r, 0 ≤ Catalog.duplicate r) (catalog st)) as Hpos.
{ repeat constructor; simpl; lia. }
assert (Catalog.first_wins (catalog st)) as Hinv.
{ apply first_wins_checked. reflexivity. }
destruct (update_duplicate_count_flags_all st "da39a3ee" Hpos Hinv)
  as (_ & _ & _ & _ & Hinv').
split_and!; [exact Hpos | exact Hinv | reflexivity | exact Hinv'].
Defined.

(** ** What can end a run of [reorder.py] *)

Section RawReorganize.

Import RawReorder.
Context `{Platform} `{Reorder.FileSystem}.

(** On a row with a text [date_taken] the iteration is the one of
    [Reorder]. *)
Lemma raw_relocate_text fs (moved_files : gmap string string) (r : Reorder.record) :
relocate fs moved_files (text r) = of_run (Reorder.relocate fs moved_files r).
Proof.
unfold relocate, Reorder.relocate, of_run, destination_dir_of,
  Reorder.destination_path_of, Reorder.destination_dir_of.
destruct r as [[p h] d]. simpl.
unfold file_hash, file_path, Reorder.file_hash, Reorder.file_path. simpl.
destruct (moved_files !! h); [done |].
destruct (Reorder.base_dir_of p) as [base_dir|]; [| done].
unfold Reorder.date_taken. simpl.
destruct (Reorder.os_makedirs fs (os_path_join base_dir (Py.slice_to 4 d)))
  as [fs1 [|]]; [| done].
by destruct (Reorder.shutil_move fs1 p
               (os_path_join (os_path_join base_dir (Py.slice_to 4 d))
                  (Path_name p))) as [fs2 [|]].
Qed.

Lemma raw_loop_text fs (moved_files : gmap string string)
    (file_records : list Reorder.record) :
loop fs moved_files (text <$> file_records)
= of_run (Reorder.loop fs moved_files file_records).
Proof.
revert fs moved_files.
induction file_records as [|r rest IH]; intros fs moved_files; [done |].
rewrite reorder_loop_cons. simpl. rewrite raw_relocate_text.
destruct (Reorder.relocate fs moved_files r) as [[[evs fs1] moved1] [|e]];
  [| done].
unfold of_run at 1. simpl. rewrite IH.
destruct (Reorder.loop fs1 moved1 rest) as [[[evs' fs2] moved2] o].
unfold of_run. simpl. by rewrite fmap_app.
Qed.

(** The ways an iteration can go. *)
Lemma raw_relocate_ending fs (moved_files : gmap string string) (r : record) :
let step := relocate fs moved_files r in
(ending_of step = Finished)
∨ (∃ base_dir destination_dir,
     Reorder.base_dir_of (file_path r) = Some base_dir
     ∧ destination_dir_of base_dir r = Some destination_dir
     ∧ (Reorder.os_makedirs fs destination_dir).2 = false
     ∧ ending_of step = Ended (OSError destination_dir)
     ∧ events_of step = [(r, Reorder.CallMakedirs destination_dir)])
∨ (is_text r = false
   ∧ is_Some (Reorder.base_dir_of (file_path r))
   ∧ moved_files !! file_hash r = None
   ∧ step = ([], fs, moved_files, EndedTypeError r)).
Proof.
unfold relocate.
destruct (moved_files !! file_hash r) eqn:Hrec; [by left |].
destruct (Reorder.base_dir_of (file_path r)) as [base_dir|] eqn:Hbase;
  [| by left].
destruct (destination_dir_of base_dir r) as [destination_dir|] eqn:Hdir.
- destruct (Reorder.os_makedirs fs destination_dir) as [fs1 [|]] eqn:Hmk.
  + left.
    by destruct (Reorder.shutil_move fs1 (file_path r)
                   (os_path_join destination_dir (Path_name (file_path r))))
      as [fs2 [|]].
  + right. left. exists base_dir, destination_dir. by rewrite Hmk.
- right. right. split_and!; [| eauto | done | done].
  unfold destination_dir_of, is_text in *. by destruct (date_taken r).
Qed.

Lemma raw_loop_cons fs (moved_files : gmap string string) r rest :
loop fs moved_files (r :: rest)
= match relocate fs moved_files r with
  | (evs, fs', moved', Finished) =>
      let '(evs', fs'', moved'', o) := loop fs' moved' rest in
      (evs ++ evs', fs'', moved'', o)
  | stopped => stopped
  end.
Proof. done. Qed.

Lemma raw_loop_ended file_records fs (moved_files : gmap string string) e :
ending_of (loop fs moved_files file_records) = Ended e →
∃ r base_dir destination_dir,
  r ∈ file_records
  ∧ Reorder.base_dir_of (file_path r) = Some base_dir
  ∧ destination_dir_of base_dir r = Some destination_dir
  ∧ e = OSError destination_dir
  ∧ last (events_of (loop fs moved_files file_records))
    = Some (r, Reorder.CallMakedirs destination_dir).
Proof.
revert fs moved_files.
induction file_records as [|r rest IH]; intros fs moved_files; [done |].
rewrite raw_loop_cons.
destruct (raw_relocate_ending fs moved_files r)
  as [Ho | [(base_dir & dir & Hbase & Hdir & _ & Ho & Hevs) | (_ & _ & _ & Hstep)]];
  destruct (relocate fs moved_files r) as [[[evs fs1] moved1] o];
  unfold ending_of, events_of in *; simpl in *.
- subst o. specialize (IH fs1 moved1).
  destruct (loop fs1 moved1 rest) as [[[evs' fs2] moved2] o'].
  simpl in *. intros Hended.
  destruct (IH Hended) as (r' & base_dir & dir & Hin & Hbase & Hdir & He & Hlast).
  exists r', base_dir, dir. split_and!; [by right | done | done | done |].
  by rewrite last_app, Hlast.
- subst o. intros [= <-]. exists r, base_dir, dir.
  split_and!; [by left | done | done | done | by rewrite Hevs].
- injection Hstep as -> -> -> ->. by intros [=].
Qed.

Lemma raw_loop_type_error file_records fs (moved_files : gmap string string) r :
ending_of (loop fs moved_files file_records) = EndedTypeError r →
r ∈ file_records
∧ is_text r = false
∧ is_Some (Reorder.base_dir_of (file_path r))
∧ moved_of (loop fs moved_files file_records) !! file_hash r = None.
Proof.
revert fs moved_files.
induction file_records as [|r0 rest IH]; intros fs moved_files; [done |].
rewrite raw_loop_cons.
destruct (raw_relocate_ending fs moved_files r0)
  as [Ho | [(base_dir & dir & _ & _ & _ & Ho & _)
           | (Htext & Hbase & Hrec & Hstep)]];
  destruct (relocate fs moved_files r0) as [[[evs fs1] moved1] o];
  unfold ending_of, moved_of in *; simpl in *.
- subst o. specialize (IH fs1 moved1).
  destruct (loop fs1 moved1 rest) as [[[evs' fs2] moved2] o'].
  simpl in *. intros Hended.
  destruct (IH Hended) as (Hin & Hrest). split; [by right | done].
- by subst o.
- injection Hstep as -> -> -> ->. intros [= <-].
  split_and!; [by left | done | done | done].
Qed.

Lemma raw_loop_finishes file_records fs (moved_files : gmap string string) :
forallb is_text file_records = true →
(∀ fs' d, (Reorder.os_makedirs fs' d).2 = true) →
ending_of (loop fs moved_files file_records) = Finished.
Proof.
intros Htext Hdirs. revert fs moved_files.
induction file_records as [|r rest IH]; intros fs moved_files; [done |].
simpl in Htext. apply andb_prop in Htext as [Hr Hrest].
rewrite raw_loop_cons.
destruct (raw_relocate_ending fs moved_files r)
  as [Ho | [(base_dir & dir & _ & _ & Hfail & _) | (Hnot & _)]].
- destruct (relocate fs moved_files r) as [[[evs fs1] moved1] o].
  unfold ending_of in *; simpl in *; subst o.
  specialize (IH Hrest fs1 moved1).
  by destruct (loop fs1 moved1 rest) as [[[evs' fs2] moved2] o'].
- by rewrite Hdirs in Hfail.
- congruence.
Qed.

(** X12.  What can end a run of [reorder.py], the rows taken as SQLite
    hands them over, with a [date_taken] that is text, a BLOB or NULL.
    A run is ended by the error of [os.makedirs] for the destination
    directory of a row with a recognised extension, that call being the
    last event of the run; or by the [TypeError] of lines 52 to 55 for a
    row whose [date_taken] is not text, whose extension is recognised and
    whose hash has not been moved; and by nothing else: when every
    [date_taken] is text and [os.makedirs] does not fail, the run
    completes.  On rows with a text [date_taken] the run is the one of
    [Reorder]. *)
Theorem reorder_ends_on_makedirs_or_date_type (fs : Reorder.FS)
    (file_records : list record) :
(∀ e, ending_of (reorder fs file_records) = Ended e →
      ∃ r base_dir destination_dir,
        r ∈ file_records
        ∧ Reorder.base_dir_of (file_path r) = Some base_dir
        ∧ destination_dir_of base_dir r = Some destination_dir
        ∧ e = OSError destination_dir
        ∧ last (events_of (reorder fs file_records))
          = Some (r, Reorder.CallMakedirs destination_dir))
∧ (∀ r, ending_of (reorder fs file_records) = EndedTypeError r →
        r ∈ file_records
        ∧ is_text r = false
        ∧ is_Some (Reorder.base_dir_of (file_path r))
        ∧ moved_of (reorder fs file_records) !! file_hash r = None)
∧ (forallb is_text file_records = true →
   (∀ fs' d, (Reorder.os_makedirs fs' d).2 = true) →
   ending_of (reorder fs file_records) = Finished)
∧ (∀ cat : list Catalog.row,
     reorder fs (text <$> Catalog.select_all cat)
     = of_run (Reorder.reorder fs cat)).
Proof.
unfold reorder. split_and!.
- intros e. apply raw_loop_ended.
- intros r. apply raw_loop_type_error.
- apply raw_loop_finishes.
- intros cat. unfold Reorder.reorder. apply raw_loop_text.
Qed.

End RawReorganize.

Lemma reorder_ends_on_makedirs_or_date_type_witness :
let fs : Reorder.FS := ["/r/a.jpg"; "/r/b.jpg"] in
let a : RawReorder.record :=
  ("/r/a.jpg", "da39a3ee", RawReorder.Text "2021-01-02T12:00:00") in
let b : RawReorder.record :=
  ("/r/b.jpg", "77af3e10", RawReorder.Blob [Byte.x32; Byte.x30]) in
RawReorder.ending_of (RawReorder.reorder fs [a; b]) = RawReorder.EndedTypeError b
∧ RawReorder.is_text b = false
∧ (∀ (fs' : Reorder.FS) d, (Reorder.os_makedirs fs' d).2 = true)
∧ RawReorder.ending_of (RawReorder.reorder fs [a]) = RawReorder.Finished.
Proof.
intros fs a b.
assert (RawReorder.ending_of (RawReorder.reorder fs [a; b])
        = RawReorder.EndedTypeError b) as Hended.
{ vm_compute. reflexivity. }
assert (∀ (fs' : Reorder.FS) d, (Reorder.os_makedirs fs' d).2 = true) as Hdirs.
{ intros fs' d. reflexivity. }
destruct (reorder_ends_on_makedirs_or_date_type fs [a; b])
  as (_ & Htype & _ & _).
destruct (reorder_ends_on_makedirs_or_date_type fs [a])
  as (_ & _ & Hfinish & _).
split_and!; [exact Hended | | exact Hdirs | ].
- exact (proj1 (proj2 (Htype b Hended))).
- exact (Hfinish eq_refl Hdirs).
Defined.
